(** * BERT pre-training notebook: input formatting and the masked-LM head

    A shallow embedding of the two code cells of [BERT_pre-training.ipynb]
    that carry logic of their own:

    - [get_tokens_and_segments], the sequence formatter: Python lists of
      tokens become [list string], the optional second sentence an [option],
      segment ids a [list Z];
    - [MaskLM], the masked language model head: its [forward] gathers hidden
      vectors with PyTorch's advanced indexing and maps them through a
      four-layer [nn.Sequential].

    Tensors are modelled the way PyTorch stores a contiguous tensor: a shape
    and the elements in row-major order.  The tensor operations [forward]
    calls ([reshape] with an inferred dimension, [arange],
    [repeat_interleave], indexing by a pair of index tensors, [nn.Linear],
    [nn.ReLU], [nn.LayerNorm]) follow PyTorch's documented behaviour on CPU,
    exceptions included.  Floating-point scalars are abstract: the head is
    defined over an arbitrary scalar type with its arithmetic given as
    section variables, so what is proved holds for every rounding behaviour
    and concerns shapes, data movement and the structure of the transform. *)

From Stdlib Require Import String.
From Stdlib Require Import List ZArith Lia Bool Arith.
Import ListNotations.

(** ** Exceptions *)

(** The Python exceptions the modelled code can raise. *)
Inductive exn : Type :=
| IndexError
| RuntimeError.

(** A computation either returns a value or raises. *)
Inductive result (A : Type) : Type :=
| Ok (a : A)
| Raise (e : exn).

Arguments Ok {A} a.
Arguments Raise {A} e.

Definition bind {A B : Type} (r : result A) (k : A -> result B) : result B :=
  match r with
  | Ok a => k a
  | Raise e => Raise e
  end.

Notation "x <- r ;; k" := (bind r (fun x => k))
  (at level 61, r at next level, right associativity).

(** Run [f] over a list left to right; the first exception wins. *)
Fixpoint mapM {A B : Type} (f : A -> result B) (l : list A) : result (list B) :=
  match l with
  | [] => Ok []
  | x :: xs => y <- f x ;; ys <- mapM f xs ;; Ok (y :: ys)
  end.

(** ** The sequence formatter *)

Module Formatter.

(** [def get_tokens_and_segments(tokens_a, tokens_b=None)]:
    [tokens_b = None] is Python's [None]; [Some []] is an empty list. *)
Definition get_tokens_and_segments
    (tokens_a : list string) (tokens_b : option (list string))
  : list string * list Z :=
  let tokens := ["<cls>"%string] ++ tokens_a ++ ["<sep>"%string] in
  let segments := repeat 0%Z (length tokens_a + 2) in
  match tokens_b with
  | Some tokens_b =>
      (tokens ++ (tokens_b ++ ["<sep>"%string]),
       segments ++ repeat 1%Z (length tokens_b + 1))
  | None => (tokens, segments)
  end.

End Formatter.

(** ** Tensors *)

Module Torch.

(** A contiguous tensor: its shape and its elements in row-major order. *)
Record tensor (A : Type) : Type := Tensor {
  shape : list nat;
  data : list A
}.

Arguments Tensor {A} shape data.
Arguments shape {A} t.
Arguments data {A} t.

(** Number of elements a shape holds: the product of its dimensions. *)
Definition numel_of (sh : list nat) : nat := fold_right Nat.mul 1 sh.

Definition numel {A : Type} (t : tensor A) : nat := numel_of (shape t).

(** A tensor value is well formed when it stores as many elements as its
    shape announces. *)
Definition wf_tensor {A : Type} (t : tensor A) : Prop :=
  length (data t) = numel t.

(** [t.shape[i]]: raises [IndexError] when [t] has no dimension [i]. *)
Definition shape_at {A : Type} (t : tensor A) (i : nat) : result nat :=
  match nth_error (shape t) i with
  | Some d => Ok d
  | None => Raise IndexError
  end.

(** [l[start : start + len]]. *)
Definition slice {A : Type} (l : list A) (start len : nat) : list A :=
  firstn len (skipn start l).

(** Replace the element at index [i]. *)
Fixpoint set_nth {A : Type} (i : nat) (v : A) (l : list A) : list A :=
  match l, i with
  | [], _ => []
  | _ :: xs, O => v :: xs
  | x :: xs, S j => x :: set_nth j v xs
  end.

(** The scan of [infer_size]: the product of the given dimensions and the
    index of the dimension written [-1], if any.  A second [-1] and any other
    negative dimension raise. *)
Fixpoint infer_scan (target : list Z) (newsize : nat) (infer_dim : option nat)
    (dim : nat) : result (nat * option nat) :=
  match target with
  | [] => Ok (newsize, infer_dim)
  | d :: rest =>
      if (d =? -1)%Z then
        match infer_dim with
        | Some _ => Raise RuntimeError
        | None => infer_scan rest newsize (Some dim) (S dim)
        end
      else if (0 <=? d)%Z then
        infer_scan rest (newsize * Z.to_nat d) infer_dim (S dim)
      else Raise RuntimeError
  end.

(** The shape a [reshape] to [target] gives a tensor of [n] elements.  With a
    [-1] the other dimensions must divide [n] and must not multiply to zero:
    a zero-element tensor cannot be reshaped to a shape with a zero dimension
    and a [-1], the inferred dimension being ambiguous. *)
Definition infer_size (target : list Z) (n : nat) : result (list nat) :=
  scan <- infer_scan target 1 None 0 ;;
  let '(newsize, infer_dim) := scan in
  match infer_dim with
  | Some i =>
      if (n =? newsize) || ((0 <? newsize) && (n mod newsize =? 0)) then
        if newsize =? 0 then Raise RuntimeError
        else Ok (set_nth i (n / newsize) (map Z.to_nat target))
      else Raise RuntimeError
  | None =>
      if n =? newsize then Ok (map Z.to_nat target) else Raise RuntimeError
  end.

(** [t.reshape(target)]: same elements, new shape. *)
Definition reshape {A : Type} (t : tensor A) (target : list Z)
  : result (tensor A) :=
  sh <- infer_size target (numel t) ;;
  Ok (Tensor sh (data t)).

(** [torch.arange(start, stop)]. *)
Definition arange (start stop : Z) : tensor Z :=
  let n := Z.to_nat (stop - start) in
  Tensor [n] (map (fun i => (start + Z.of_nat i)%Z) (seq 0 n)).

(** [torch.repeat_interleave(t, repeats)] with an integer [repeats]: the
    flattened input with every element repeated in place. *)
Definition repeat_interleave {A : Type} (t : tensor A) (repeats : nat)
  : tensor A :=
  let d := flat_map (fun x => repeat x repeats) (data t) in
  Tensor [length d] d.

(** An index into a dimension of [size] entries: negative indices count from
    the end, anything outside [-size, size) raises [IndexError]. *)
Definition wrap_index (i : Z) (size : nat) : result nat :=
  if ((- Z.of_nat size <=? i) && (i <? Z.of_nat size))%Z then
    Ok (Z.to_nat (if (i <? 0)%Z then i + Z.of_nat size else i)%Z)
  else Raise IndexError.

(** The position a valid index denotes. *)
Definition wrapped (i : Z) (size : nat) : nat :=
  Z.to_nat (if (i <? 0)%Z then i + Z.of_nat size else i)%Z.

(** Broadcasting two one-dimensional shapes. *)
Definition broadcast1 (a b : nat) : result nat :=
  if a =? b then Ok a
  else if a =? 1 then Ok b
  else if b =? 1 then Ok a
  else Raise IndexError.

(** Expand a one-dimensional index list to the broadcast length [n]. *)
Definition expand1 {A : Type} (l : list A) (n : nat) : list A :=
  if length l =? n then l
  else match l with
       | [x] => repeat x n
       | _ => l
       end.

(** [X[i0, i1]] for two one-dimensional integer index tensors (the only form
    [MaskLM.forward] uses): the index tensors are broadcast together, and
    entry [j] of the result is the sub-tensor [X[i0[j], i1[j]]]. *)
Definition index2 {A : Type} (X : tensor A) (i0 i1 : tensor Z)
  : result (tensor A) :=
  match shape X, shape i0, shape i1 with
  | d0 :: d1 :: rest, [a], [b] =>
      n <- broadcast1 a b ;;
      let inner := numel_of rest in
      picked <- mapM (fun bp : Z * Z =>
                        let (b, p) := bp in
                        b' <- wrap_index b d0 ;;
                        p' <- wrap_index p d1 ;;
                        Ok (slice (data X) ((b' * d1 + p') * inner) inner))
                     (combine (expand1 (data i0) n) (expand1 (data i1) n)) ;;
      Ok (Tensor (n :: rest) (concat picked))
  | _, _, _ => Raise IndexError
  end.

(** [X[b, p]] for two Python integers: the elements of that sub-tensor. *)
Definition select2 {A : Type} (X : tensor A) (b p : Z) : result (list A) :=
  match shape X with
  | d0 :: d1 :: rest =>
      b' <- wrap_index b d0 ;;
      p' <- wrap_index p d1 ;;
      Ok (slice (data X) ((b' * d1 + p') * numel_of rest) (numel_of rest))
  | _ => Raise IndexError
  end.

(** [X[b]] for a Python integer: the elements of that sub-tensor. *)
Definition select1 {A : Type} (X : tensor A) (b : Z) : result (list A) :=
  match shape X with
  | d0 :: rest =>
      b' <- wrap_index b d0 ;;
      Ok (slice (data X) (b' * numel_of rest) (numel_of rest))
  | _ => Raise IndexError
  end.

(** [P[b][k]] of a two-dimensional integer tensor, read from its storage. *)
Definition item2 (P : tensor Z) (b k : nat) : Z :=
  nth (b * nth 1 (shape P) 0 + k) (data P) 0%Z.

(** The [m] consecutive rows of [k] elements of a storage. *)
Definition rows {A : Type} (k m : nat) (l : list A) : list (list A) :=
  map (fun i => slice l (i * k) k) (seq 0 m).

(** Apply [f] to every vector along the last axis of [t], which must have
    [expect] entries; the result's last axis has [out] entries. *)
Definition map_last {A : Type} (f : list A -> list A) (expect out : nat)
    (t : tensor A) : result (tensor A) :=
  match rev (shape t) with
  | last :: rinit =>
      if last =? expect then
        Ok (Tensor (rev rinit ++ [out])
                   (concat (map f (rows last (numel_of (rev rinit)) (data t)))))
      else Raise RuntimeError
  | [] => Raise RuntimeError
  end.

End Torch.

(** ** The masked language model head *)

Module MaskLM.

Import Torch.

(** The arithmetic of the scalar type the head computes with, kept abstract.
    [init_weight] and [init_bias] stand for the draws of the random
    initialiser when a lazy layer materialises its parameters, indexed by the
    layer's place in the [nn.Sequential]. *)
Class Numerics (F : Type) : Type := {
  fzero : F;
  fone : F;
  fadd : F -> F -> F;
  fsub : F -> F -> F;
  fmul : F -> F -> F;
  fdiv : F -> F -> F;
  fsqrt : F -> F;
  fmax : F -> F -> F;
  of_nat : nat -> F;
  ln_eps : F;
  init_weight : nat -> nat -> nat -> F;
  init_bias : nat -> nat -> F
}.

Section Gather.

Context {A : Type}.

(** [MaskLM.forward] up to and including the line
    [masked_X = X[batch_idx, pred_positions]]: returns [batch_size],
    [num_pred_positions] and the gathered tensor. *)
Definition forward_gather (X : tensor A) (pred_positions : tensor Z)
  : result (nat * nat * tensor A) :=
  num_pred_positions <- shape_at pred_positions 1 ;;
  pred_positions <- reshape pred_positions [(-1)%Z] ;;
  batch_size <- shape_at X 0 ;;
  let batch_idx := arange 0 (Z.of_nat batch_size) in
  let batch_idx := repeat_interleave batch_idx num_pred_positions in
  masked_X <- index2 X batch_idx pred_positions ;;
  Ok (batch_size, num_pred_positions, masked_X).

(** [MaskLM.forward] up to the line
    [masked_X = masked_X.reshape((batch_size, num_pred_positions, -1))]:
    the tensor handed to the MLP. *)
Definition forward_masked (X : tensor A) (pred_positions : tensor Z)
  : result (tensor A) :=
  g <- forward_gather X pred_positions ;;
  let '(batch_size, num_pred_positions, masked_X) := g in
  reshape masked_X
          [Z.of_nat batch_size; Z.of_nat num_pred_positions; (-1)%Z].

End Gather.

Section Head.

Context {F : Type} {num : Numerics F}.

(** The parameters of an [nn.Linear]: [weight] has [out_features] rows of
    [in_features] entries. *)
Record linear : Type := Linear {
  in_features : nat;
  out_features : nat;
  weight : list (list F);
  bias : list F
}.

Definition dot (x w : list F) : F :=
  fold_left (fun acc xw => fadd acc (fmul (fst xw) (snd xw)))
            (combine x w) fzero.

(** [x W^T + b] for one vector. *)
Definition linear_vec (l : linear) (x : list F) : list F :=
  map (fun wb => fadd (dot x (fst wb)) (snd wb))
      (combine (weight l) (bias l)).

(** [nn.Linear.forward]: acts on the last axis, which must have
    [in_features] entries. *)
Definition linear_forward (l : linear) (t : tensor F) : result (tensor F) :=
  map_last (linear_vec l) (in_features l) (out_features l) t.

(** [nn.ReLU]: elementwise [max(0, x)]. *)
Definition relu_vec (x : list F) : list F := map (fmax fzero) x.

Definition relu (t : tensor F) : tensor F :=
  Tensor (shape t) (relu_vec (data t)).

(** The parameters of an [nn.LayerNorm(normalized_shape)] over the last
    axis. *)
Record layer_norm : Type := LayerNorm {
  normalized_shape : nat;
  gamma : list F;
  beta : list F
}.

Definition fsum (x : list F) : F := fold_left fadd x fzero.

(** [(x - E[x]) / sqrt(Var[x] + eps) * gamma + beta] for one vector, with the
    biased variance. *)
Definition layer_norm_vec (ln : layer_norm) (x : list F) : list F :=
  let n := of_nat (length x) in
  let mean := fdiv (fsum x) n in
  let var := fdiv (fsum (map (fun v => fmul (fsub v mean) (fsub v mean)) x)) n in
  let denom := fsqrt (fadd var ln_eps) in
  map (fun vgb =>
         fadd (fmul (fdiv (fsub (fst vgb) mean) denom) (fst (snd vgb)))
              (snd (snd vgb)))
      (combine x (combine (gamma ln) (beta ln))).

Definition layer_norm_forward (ln : layer_norm) (t : tensor F)
  : result (tensor F) :=
  map_last (layer_norm_vec ln) (normalized_shape ln) (normalized_shape ln) t.

(** An [nn.LazyLinear(out_features)]: its parameters do not exist until the
    first call, which reads [in_features] off the input's last axis. *)
Inductive lazy_linear : Type :=
| Uninitialized (out : nat)
| Materialized (l : linear).

Definition materialize (layer out inp : nat) : linear :=
  Linear inp out
         (map (fun i => map (fun j => init_weight layer i j) (seq 0 inp))
              (seq 0 out))
         (map (fun i => init_bias layer i) (seq 0 out)).

(** Calling a lazy linear layer: the result and the layer afterwards. *)
Definition lazy_forward (layer : nat) (st : lazy_linear) (t : tensor F)
  : result (tensor F) * lazy_linear :=
  match st with
  | Materialized l => (linear_forward l t, st)
  | Uninitialized out =>
      match rev (shape t) with
      | last :: _ =>
          let l := materialize layer out last in
          (linear_forward l t, Materialized l)
      | [] => (Raise IndexError, st)
      end
  end.

(** The state of a [MaskLM] instance: the three parametrised layers of
    [self.mlp] ([nn.ReLU] has no state). *)
Record module : Type := Module_ {
  fc1 : lazy_linear;
  norm : layer_norm;
  fc2 : lazy_linear
}.

(** [MaskLM.__init__(vocab_size, num_hiddens)]. *)
Definition init (vocab_size num_hiddens : nat) : module :=
  Module_ (Uninitialized num_hiddens)
          (LayerNorm num_hiddens (repeat fone num_hiddens)
                     (repeat fzero num_hiddens))
          (Uninitialized vocab_size).

(** [self.mlp(masked_X)]: the four layers of the [nn.Sequential] in order,
    threading the module state; an exception stops the chain. *)
Definition mlp (m : module) (t : tensor F) : result (tensor F) * module :=
  let (r1, fc1') := lazy_forward 0 (fc1 m) t in
  match r1 with
  | Raise e => (Raise e, Module_ fc1' (norm m) (fc2 m))
  | Ok h1 =>
      let h2 := relu h1 in
      match layer_norm_forward (norm m) h2 with
      | Raise e => (Raise e, Module_ fc1' (norm m) (fc2 m))
      | Ok h3 =>
          let (r4, fc2') := lazy_forward 3 (fc2 m) h3 in
          (r4, Module_ fc1' (norm m) fc2')
      end
  end.

(** [MaskLM.forward(X, pred_positions)]. *)
Definition forward (m : module) (X : tensor F) (pred_positions : tensor Z)
  : result (tensor F) * module :=
  match forward_masked X pred_positions with
  | Raise e => (Raise e, m)
  | Ok masked_X => mlp m masked_X
  end.

(** The transform one gathered vector goes through. *)
Definition mlp_vec (l1 : linear) (ln : layer_norm) (l2 : linear)
    (x : list F) : list F :=
  linear_vec l2 (layer_norm_vec ln (relu_vec (linear_vec l1 x))).

(** Output width of a lazy layer, materialised or not. *)
Definition out_width (st : lazy_linear) : nat :=
  match st with
  | Uninitialized out => out
  | Materialized l => out_features l
  end.

Definition vocab_size (m : module) : nat := out_width (fc2 m).

Definition num_hiddens (m : module) : nat := out_width (fc1 m).

(** Parameter tensors have the shapes their layer announces. *)
Definition wf_linear (l : linear) : Prop :=
  length (weight l) = out_features l /\
  Forall (fun r => length r = in_features l) (weight l) /\
  length (bias l) = out_features l.

Definition wf_lazy (st : lazy_linear) : Prop :=
  match st with
  | Uninitialized _ => True
  | Materialized l => wf_linear l
  end.

(** A module as [init] builds it and [forward] evolves it: the normalisation
    and the second projection work at the width the first projection
    produces. *)
Definition wf_module (m : module) : Prop :=
  wf_lazy (fc1 m) /\ wf_lazy (fc2 m) /\
  normalized_shape (norm m) = num_hiddens m /\
  length (gamma (norm m)) = num_hiddens m /\
  length (beta (norm m)) = num_hiddens m /\
  match fc2 m with
  | Uninitialized _ => True
  | Materialized l => in_features l = num_hiddens m
  end.

(** The module can take hidden vectors of [width] features: its first
    projection is not materialised yet, or was materialised at that width. *)
Definition accepts (m : module) (width : nat) : Prop :=
  match fc1 m with
  | Uninitialized _ => True
  | Materialized l => in_features l = width
  end.

(** The parameters a lazy layer works with once it has seen an input of
    [inp] features: its own if it has any, freshly initialised ones if not. *)
Definition realize (layer : nat) (st : lazy_linear) (inp : nat) : linear :=
  match st with
  | Materialized l => l
  | Uninitialized out => materialize layer out inp
  end.

End Head.

(** The index pairs [forward] gathers at, in order: batch index [b] paired
    with each of the [n] positions requested for [b]. *)
Definition index_pairs (batch n : nat) (positions : list Z) : list (Z * Z) :=
  combine (flat_map (fun x => repeat x n) (map Z.of_nat (seq 0 batch)))
          positions.

(** The elements of the sub-tensor at a valid index pair, for a storage of
    shape [d0 :: d1 :: rest] with [inner] elements per sub-tensor. *)
Definition pick {A : Type} (d0 d1 inner : nat) (store : list A)
    (bp : Z * Z) : list A :=
  slice store ((wrapped (fst bp) d0 * d1 + wrapped (snd bp) d1) * inner) inner.

(** Every prediction position is a valid index into an axis of [size]
    positions, counting from the end when negative. *)
Definition positions_valid (P : tensor Z) (size : nat) : Prop :=
  Forall (fun i => (- Z.of_nat size <= i < Z.of_nat size)%Z) (data P).

End MaskLM.

(** ** Concrete inputs *)

Module Demo.

Import Torch MaskLM.

(** Integer arithmetic as the scalar type, to run the head on concrete
    tensors. *)
Definition ZNum : Numerics Z := {|
  fzero := 0%Z;
  fone := 1%Z;
  fadd := Z.add;
  fsub := Z.sub;
  fmul := Z.mul;
  fdiv := Z.div;
  fsqrt := Z.sqrt;
  fmax := Z.max;
  of_nat := Z.of_nat;
  ln_eps := 1%Z;
  init_weight := fun layer i j => Z.of_nat (layer + i + 2 * j);
  init_bias := fun layer i => Z.of_nat (layer + i)
|}.

(** A hidden-state tensor of shape [(2, 5, 16)] and the prediction positions
    [[[1, 3], [0, 4]]]. *)
Definition X_2_5_16 : tensor Z := Tensor [2; 5; 16] (map Z.of_nat (seq 0 160)).

Definition P_2_2 : tensor Z := Tensor [2; 2] [1; 3; 0; 4]%Z.

(** The same positions, the last one counted from the end. *)
Definition P_negative : tensor Z := Tensor [2; 2] [1; 3; 0; -1]%Z.

(** Position 5 does not exist in a tensor of five positions. *)
Definition P_too_large : tensor Z := Tensor [2; 2] [1; 5; 0; 4]%Z.

(** A second hidden-state tensor that agrees with [X_2_5_16] on batch
    element 0 only, and positions that agree with [P_2_2] on batch element 0
    only. *)
Definition X_other : tensor Z :=
  Tensor [2; 5; 16] (map Z.of_nat (seq 0 80) ++ map Z.of_nat (seq 500 80)).

Definition P_other : tensor Z := Tensor [2; 2] [1; 3; 2; 2]%Z.

(** One batch element with one position, and an empty set of predictions
    for it. *)
Definition X_1_1_1 : tensor Z := Tensor [1; 1; 1] [7%Z].

Definition P_1_0 : tensor Z := Tensor [1; 0] [].

(** Two batch elements, and a single position row. *)
Definition X_2_1_1 : tensor Z := Tensor [2; 1; 1] [5; 6]%Z.

Definition P_1_1 : tensor Z := Tensor [1; 1] [0%Z].

(** Three position rows of two positions each. *)
Definition P_3_2 : tensor Z := Tensor [3; 2] [0; 0; 0; 0; 0; 0]%Z.

End Demo.

Module DemoMore.

Import Torch MaskLM.

(** Positions given as a flat list, without a batch axis. *)
Definition P_flat : tensor Z := Tensor [4] [1; 3; 0; 4]%Z.

(** Hidden states with two trailing axes, of shape [(2, 3, 2, 2)]. *)
Definition X_2_3_2_2 : tensor Z :=
  Tensor [2; 3; 2; 2] (map Z.of_nat (seq 0 24)).

Definition P_wrapping : tensor Z := Tensor [2; 2] [0; 2; 1; -1]%Z.

(** A single batch element, and three position rows of one position. *)
Definition X_1_3_2 : tensor Z := Tensor [1; 3; 2] (map Z.of_nat (seq 10 6)).

Definition P_3_1 : tensor Z := Tensor [3; 1] [2; 0; 1]%Z.

(** Hidden states of 8 features instead of 16. *)
Definition X_2_5_8 : tensor Z := Tensor [2; 5; 8] (map Z.of_nat (seq 0 80)).

(** A second batch, of three elements, for the same head. *)
Definition X_3_5_16 : tensor Z :=
  Tensor [3; 5; 16] (map Z.of_nat (seq 1000 240)).

Definition P_3_2_valid : tensor Z := Tensor [3; 2] [4; 4; 0; 1; 2; 3]%Z.

End DemoMore.

(** * Properties of the sequence formatter *)

Section FormatterFacts.

Import Formatter.

Local Abbreviation CLS := "<cls>"%string.
Local Abbreviation SEP := "<sep>"%string.

Lemma repeat_Forall {T : Type} (x : T) (n : nat) :
  Forall (fun y => y = x) (repeat x n).
Proof.
  induction n as [|n IH]; simpl; constructor; auto.
Qed.

Lemma firstn_repeat_app {T : Type} (x : T) (n : nat) (l : list T) :
  firstn n (repeat x n ++ l) = repeat x n.
Proof.
  induction n as [|n IH]; simpl; [reflexivity | now rewrite IH].
Qed.

Lemma skipn_repeat_app {T : Type} (x : T) (n : nat) (l : list T) :
  skipn n (repeat x n ++ l) = l.
Proof.
  induction n as [|n IH]; simpl; auto.
Qed.

(** C1. With no second sentence the formatter returns
    [['<cls>'] + A + ['<sep>']] and [len(A)+2] zeros: the output has length
    [len(A)+2], starts with the CLS marker, ends with the SEP marker, every
    segment id is 0, and the empty list gives [(['<cls>','<sep>'], [0,0])]. *)
Theorem single_sequence_format (A : list string) :
  get_tokens_and_segments A None
    = ([CLS] ++ A ++ [SEP], repeat 0%Z (length A + 2)) /\
  length (fst (get_tokens_and_segments A None)) = length A + 2 /\
  hd_error (fst (get_tokens_and_segments A None)) = Some CLS /\
  last (fst (get_tokens_and_segments A None)) EmptyString = SEP /\
  Forall (fun s => s = 0%Z) (snd (get_tokens_and_segments A None)) /\
  get_tokens_and_segments [] None = ([CLS; SEP], [0%Z; 0%Z]).
Proof.
  unfold get_tokens_and_segments; cbn [fst snd].
  repeat split.
  - simpl. rewrite length_app. simpl. lia.
  - change ([CLS] ++ A ++ [SEP]) with ((CLS :: A) ++ [SEP]).
    apply last_last.
  - apply repeat_Forall.
Qed.

(** C2. With a second sentence [B] the formatter returns
    [['<cls>'] + A + ['<sep>'] + B + ['<sep>']] and [len(A)+2] zeros followed
    by [len(B)+1] ones; the output has length [len(A)+len(B)+3], and the
    worked example of the specification evaluates as stated. *)
Theorem pair_sequence_format (A B : list string) :
  get_tokens_and_segments A (Some B)
    = ([CLS] ++ A ++ [SEP] ++ B ++ [SEP],
       repeat 0%Z (length A + 2) ++ repeat 1%Z (length B + 1)) /\
  length (fst (get_tokens_and_segments A (Some B))) = length A + length B + 3 /\
  firstn (length A + 2) (snd (get_tokens_and_segments A (Some B)))
    = repeat 0%Z (length A + 2) /\
  skipn (length A + 2) (snd (get_tokens_and_segments A (Some B)))
    = repeat 1%Z (length B + 1) /\
  get_tokens_and_segments ["the"; "cat"]%string (Some ["sat"; "down"]%string)
    = ([CLS; "the"; "cat"; SEP; "sat"; "down"; SEP]%string,
       [0; 0; 0; 0; 1; 1; 1]%Z).
Proof.
  unfold get_tokens_and_segments; cbn [fst snd].
  repeat split.
  - f_equal. now rewrite <- !app_assoc.
  - repeat (rewrite ?length_app; simpl). lia.
  - apply firstn_repeat_app.
  - apply skipn_repeat_app.
Qed.

(** C5. Whatever the first list and whether or not a second list is given,
    the token list and the segment-id list have the same length. *)
Theorem tokens_segments_same_length
    (tokens_a : list string) (tokens_b : option (list string)) :
  length (fst (get_tokens_and_segments tokens_a tokens_b))
    = length (snd (get_tokens_and_segments tokens_a tokens_b)).
Proof.
  unfold get_tokens_and_segments.
  destruct tokens_b as [b|]; cbn [fst snd];
    repeat (rewrite ?length_app, ?repeat_length; simpl); lia.
Qed.

(** C7. Formatting is not idempotent: formatting the tokens of a formatted
    list wraps it a second time, giving
    [['<cls>','<cls>'] + A + ['<sep>','<sep>']] of length [len(A)+4], which
    is strictly longer than, and different from, the singly formatted list. *)
Theorem format_not_idempotent (A : list string) :
  let once := fst (get_tokens_and_segments A None) in
  let twice := fst (get_tokens_and_segments once None) in
  twice = [CLS; CLS] ++ A ++ [SEP; SEP] /\
  length twice = length A + 4 /\
  length once < length twice /\
  twice <> once.
Proof.
  cbv zeta. unfold get_tokens_and_segments; cbn [fst snd].
  assert (E : [CLS] ++ ([CLS] ++ A ++ [SEP]) ++ [SEP]
              = [CLS; CLS] ++ A ++ [SEP; SEP]).
  { simpl. now rewrite <- app_assoc. }
  rewrite E.
  assert (L2 : length ([CLS; CLS] ++ A ++ [SEP; SEP]) = length A + 4).
  { simpl. rewrite length_app. simpl. lia. }
  assert (L1 : length ([CLS] ++ A ++ [SEP]) = length A + 2).
  { simpl. rewrite length_app. simpl. lia. }
  repeat split.
  - exact L2.
  - lia.
  - intro H. apply (f_equal (@length string)) in H. lia.
Qed.

(** C8. An empty second list is not the same as no second list: with [[]]
    the tokens end in two consecutive SEP markers and the segments in a
    single 1; with [None] there is one SEP only and no segment id 1. *)
Theorem empty_second_is_not_none (A : list string) :
  get_tokens_and_segments A (Some [])
    = ([CLS] ++ A ++ [SEP; SEP], repeat 0%Z (length A + 2) ++ [1%Z]) /\
  get_tokens_and_segments A None
    = ([CLS] ++ A ++ [SEP], repeat 0%Z (length A + 2)) /\
  ~ In 1%Z (snd (get_tokens_and_segments A None)) /\
  get_tokens_and_segments A (Some []) <> get_tokens_and_segments A None.
Proof.
  unfold get_tokens_and_segments; cbn [fst snd].
  repeat split.
  - f_equal. simpl. now rewrite <- app_assoc.
  - intro H. apply repeat_spec in H. discriminate.
  - intro H. apply (f_equal (fun p => length (snd p))) in H.
    cbn [snd] in H. rewrite length_app, !repeat_length in H. simpl in H. lia.
Qed.

End FormatterFacts.

(** * Lists cut into uniform rows *)

Section RowFacts.

Import Torch.

Context {A : Type}.

Lemma slice_length (l : list A) (s n : nat) :
  s + n <= length l -> length (slice l s n) = n.
Proof.
  intro H. unfold slice. rewrite length_firstn, length_skipn. lia.
Qed.

Lemma nth_slice (l : list A) (s n i : nat) (d : A) :
  i < n -> nth i (slice l s n) d = nth (s + i) l d.
Proof.
  intro H. unfold slice. rewrite nth_firstn.
  destruct (Nat.ltb_spec i n); [apply nth_skipn | lia].
Qed.

Lemma slice_slice (l : list A) (s n s' n' : nat) :
  s' + n' <= n -> slice (slice l s n) s' n' = slice l (s + s') n'.
Proof.
  intro H. unfold slice.
  rewrite (firstn_skipn_comm n' s' (firstn n (skipn s l))).
  rewrite firstn_firstn, Nat.min_l by lia.
  rewrite <- firstn_skipn_comm, skipn_skipn.
  now rewrite (Nat.add_comm s' s).
Qed.

Lemma length_concat_uniform (k : nat) (ls : list (list A)) :
  Forall (fun r => length r = k) ls -> length (concat ls) = length ls * k.
Proof.
  induction 1 as [|r ls Hr _ IH]; simpl; [reflexivity|].
  rewrite length_app, IH, Hr. reflexivity.
Qed.

Lemma slice_concat_uniform (k : nat) (ls : list (list A)) (i : nat) :
  Forall (fun r => length r = k) ls -> i < length ls ->
  slice (concat ls) (i * k) k = nth i ls [].
Proof.
  intro H. revert i.
  induction H as [|r ls Hr _ IH]; intros i Hi; simpl in Hi; [lia|].
  unfold slice in *. destruct i as [|i]; simpl concat.
  - simpl. rewrite firstn_app, Hr, Nat.sub_diag. simpl.
    rewrite firstn_all2 by lia. apply app_nil_r.
  - rewrite skipn_app, Hr.
    rewrite skipn_all2 by (simpl; lia).
    replace (S i * k - k) with (i * k) by (simpl; lia).
    simpl. apply IH. lia.
Qed.

Lemma map_nth_seq (ls : list (list A)) :
  map (fun i => nth i ls []) (seq 0 (length ls)) = ls.
Proof.
  induction ls as [|r ls IH]; simpl; [reflexivity|].
  f_equal. rewrite <- seq_shift, map_map. exact IH.
Qed.

Lemma rows_concat (k : nat) (ls : list (list A)) :
  Forall (fun r => length r = k) ls ->
  rows k (length ls) (concat ls) = ls.
Proof.
  intro H. unfold rows.
  transitivity (map (fun i => nth i ls []) (seq 0 (length ls)));
    [|apply map_nth_seq].
  apply map_ext_in. intros i Hi. apply in_seq in Hi.
  apply slice_concat_uniform; [exact H | lia].
Qed.

(** Two storages cut into the same rows are equal. *)
Lemma slice_rows_ext (l l' : list A) (s s' n k : nat) :
  s + n * k <= length l -> s' + n * k <= length l' ->
  (forall j, j < n -> slice l (s + j * k) k = slice l' (s' + j * k) k) ->
  slice l s (n * k) = slice l' s' (n * k).
Proof.
  intros Hl Hl' H.
  destruct k as [|k].
  { rewrite Nat.mul_0_r. reflexivity. }
  destruct l as [|d l0].
  { simpl in Hl. assert (n = 0) by nia. subst n. reflexivity. }
  set (l1 := d :: l0) in *.
  apply (nth_ext _ _ d d).
  - rewrite !slice_length; auto.
  - intros i Hi. rewrite slice_length in Hi by assumption.
    rewrite !nth_slice by assumption.
    pose proof (Nat.div_mod_eq i (S k)) as E.
    pose proof (Nat.mod_upper_bound i (S k) ltac:(lia)) as Hr.
    assert (Hq : i / S k < n).
    { apply Nat.Div0.div_lt_upper_bound. lia. }
    specialize (H _ Hq).
    apply (f_equal (fun r => nth (i mod S k) r d)) in H.
    rewrite !nth_slice in H by assumption.
    replace (s + i) with (s + i / S k * S k + i mod S k) by lia.
    replace (s' + i) with (s' + i / S k * S k + i mod S k) by lia.
    exact H.
Qed.

End RowFacts.

(** * Exceptions and indices *)

Section IndexFacts.

Import Torch.

Lemma mapM_ok {A B : Type} (f : A -> result B) (g : A -> B) (l : list A) :
  (forall x, In x l -> f x = Ok (g x)) -> mapM f l = Ok (map g l).
Proof.
  induction l as [|x l IH]; intro H; simpl; [reflexivity|].
  rewrite (H x) by (now left). simpl.
  rewrite IH by (intros y Hy; apply H; now right). reflexivity.
Qed.

Lemma mapM_raise {A B : Type} (f : A -> result B) (e : exn) (l : list A) :
  (forall x, In x l -> f x = Raise e \/ exists y, f x = Ok y) ->
  (exists x, In x l /\ f x = Raise e) ->
  mapM f l = Raise e.
Proof.
  induction l as [|x l IH]; intros Hall [x0 [Hin Hx0]]; [destruct Hin|].
  simpl. destruct (Hall x (or_introl eq_refl)) as [E|[y E]]; rewrite E; simpl.
  - reflexivity.
  - destruct Hin as [->|Hin]; [congruence|].
    rewrite IH; [reflexivity | | exists x0; auto].
    intros z Hz. apply Hall. now right.
Qed.

Lemma wrap_index_valid (i : Z) (size : nat) :
  (- Z.of_nat size <= i < Z.of_nat size)%Z ->
  wrap_index i size = Ok (wrapped i size) /\ wrapped i size < size.
Proof.
  intro H. unfold wrap_index, wrapped.
  destruct (Z.leb_spec (- Z.of_nat size) i); [|lia].
  destruct (Z.ltb_spec i (Z.of_nat size)); [|lia].
  split; [reflexivity|].
  destruct (Z.ltb_spec i 0); lia.
Qed.

Lemma wrap_index_invalid (i : Z) (size : nat) :
  (i < - Z.of_nat size \/ Z.of_nat size <= i)%Z ->
  wrap_index i size = Raise IndexError.
Proof.
  intro H. unfold wrap_index.
  destruct (Z.leb_spec (- Z.of_nat size) i);
    destruct (Z.ltb_spec i (Z.of_nat size)); simpl; auto; lia.
Qed.

Lemma wrap_index_nat (b size : nat) :
  b < size -> wrap_index (Z.of_nat b) size = Ok b.
Proof.
  intro H. destruct (wrap_index_valid (Z.of_nat b) size) as [E _]; [lia|].
  rewrite E. unfold wrapped.
  destruct (Z.ltb_spec (Z.of_nat b) 0); [lia|]. now rewrite Nat2Z.id.
Qed.

Lemma arange_from_zero (n : nat) :
  arange 0 (Z.of_nat n) = Tensor [n] (map Z.of_nat (seq 0 n)).
Proof.
  unfold arange. rewrite Z.sub_0_r, Nat2Z.id. reflexivity.
Qed.

Lemma length_interleave {T : Type} (l : list T) (n : nat) :
  length (flat_map (fun x => repeat x n) l) = length l * n.
Proof.
  induction l as [|x l IH]; simpl; [reflexivity|].
  rewrite length_app, repeat_length, IH. reflexivity.
Qed.

Lemma nth_interleave {T : Type} (l : list T) (n b k : nat) (d : T) :
  b < length l -> k < n ->
  nth (b * n + k) (flat_map (fun x => repeat x n) l) d = nth b l d.
Proof.
  revert b. induction l as [|x l IH]; intros b Hb Hk; simpl in Hb; [lia|].
  simpl flat_map. destruct b as [|b].
  - rewrite app_nth1 by (rewrite repeat_length; simpl; lia).
    simpl. apply nth_repeat_lt. exact Hk.
  - rewrite app_nth2 by (rewrite repeat_length; simpl; lia).
    rewrite repeat_length.
    replace (S b * n + k - n) with (b * n + k) by (simpl; lia).
    simpl. apply IH; lia.
Qed.

End IndexFacts.

(** * The gather of [MaskLM.forward] *)

Section GatherFacts.

Import Torch MaskLM.

Context {A : Type}.

Lemma reshape_flat {T : Type} (t : tensor T) :
  reshape t [(-1)%Z] = Ok (Tensor [numel t] (data t)).
Proof.
  unfold reshape, infer_size. simpl.
  change (fst (Nat.divmod (numel t) 0 0 0)) with (numel t / 1).
  rewrite Nat.div_1_r, orb_true_r. reflexivity.
Qed.

Lemma numel_pair (a b : nat) : numel_of [a; b] = a * b.
Proof. simpl. lia. Qed.

(** [forward_gather] on a tensor with at least two axes and a
    two-dimensional position tensor, with the exceptions still to be
    decided: the two index lists are broadcast and every pair is checked. *)
Lemma forward_gather_unfold (X : tensor A) (P : tensor Z)
    (B B' Pn n : nat) (rest : list nat) :
  shape X = B :: Pn :: rest -> shape P = [B'; n] ->
  forward_gather X P =
    (len <- broadcast1 (B * n) (B' * n) ;;
     picked <- mapM (fun bp : Z * Z =>
                       let (b, p) := bp in
                       b' <- wrap_index b B ;;
                       p' <- wrap_index p Pn ;;
                       Ok (slice (data X) ((b' * Pn + p') * numel_of rest)
                                 (numel_of rest)))
                    (combine
                       (expand1 (flat_map (fun x => repeat x n)
                                          (map Z.of_nat (seq 0 B))) len)
                       (expand1 (data P) len)) ;;
     Ok (B, n, Tensor (len :: rest) (concat picked))).
Proof.
  intros HX HP. unfold forward_gather, shape_at.
  rewrite HP, HX. cbn [nth_error bind].
  rewrite reshape_flat. cbn [bind].
  rewrite arange_from_zero.
  unfold index2, repeat_interleave. cbn [shape data].
  rewrite HX. unfold numel. rewrite HP, numel_pair.
  rewrite length_interleave, length_map, length_seq.
  destruct (broadcast1 (B * n) (B' * n)) as [len|e]; cbn [bind]; [|reflexivity].
  match goal with
  | |- bind (bind ?m _) _ = bind ?m' _ => change m' with m; destruct m
  end; reflexivity.
Qed.

Lemma in_index_pairs (B n : nat) (positions : list Z) (b p : Z) :
  In (b, p) (index_pairs B n positions) ->
  (exists b0, b = Z.of_nat b0 /\ b0 < B) /\ In p positions.
Proof.
  intro H. unfold index_pairs in H. split.
  - apply in_combine_l in H. apply in_flat_map in H.
    destruct H as [x [Hx Hb]]. apply repeat_spec in Hb. subst b.
    apply in_map_iff in Hx. destruct Hx as [b0 [<- Hb0]].
    apply in_seq in Hb0. exists b0. split; [reflexivity | lia].
  - now apply in_combine_r in H.
Qed.

Lemma length_index_pairs (B n : nat) (positions : list Z) :
  length positions = B * n -> length (index_pairs B n positions) = B * n.
Proof.
  intro H. unfold index_pairs.
  rewrite length_combine, length_interleave, length_map, length_seq. lia.
Qed.

Lemma nth_index_pairs (B n b k : nat) (positions : list Z) :
  length positions = B * n -> b < B -> k < n ->
  nth (b * n + k) (index_pairs B n positions) (0%Z, 0%Z)
    = (Z.of_nat b, nth (b * n + k) positions 0%Z).
Proof.
  intros H Hb Hk. unfold index_pairs.
  rewrite combine_nth
    by (rewrite length_interleave, length_map, length_seq; lia).
  f_equal. rewrite nth_interleave by (rewrite ?length_map, ?length_seq; lia).
  change 0%Z with (Z.of_nat 0). rewrite map_nth, seq_nth by lia. reflexivity.
Qed.

(** With matching batch dimensions and valid positions nothing raises and
    the gathered storage is the picked sub-tensors in order. *)
Lemma forward_gather_ok (X : tensor A) (P : tensor Z)
    (B Pn n : nat) (rest : list nat) :
  shape X = B :: Pn :: rest -> shape P = [B; n] -> wf_tensor P ->
  positions_valid P Pn ->
  forward_gather X P =
    Ok (B, n, Tensor (B * n :: rest)
                     (concat (map (pick B Pn (numel_of rest) (data X))
                                  (index_pairs B n (data P))))).
Proof.
  intros HX HP WP V.
  rewrite (forward_gather_unfold X P B B Pn n rest HX HP).
  assert (LP : length (data P) = B * n).
  { unfold wf_tensor, numel in WP. now rewrite HP, numel_pair in WP. }
  unfold broadcast1. rewrite Nat.eqb_refl. cbn [bind].
  unfold expand1. rewrite length_interleave, length_map, length_seq, LP.
  rewrite Nat.eqb_refl.
  fold (index_pairs B n (data P)).
  rewrite (mapM_ok _ (pick B Pn (numel_of rest) (data X))); [reflexivity|].
  intros [b p] Hin. apply in_index_pairs in Hin.
  destruct Hin as [[b0 [-> Hb0]] Hp].
  unfold positions_valid in V. rewrite Forall_forall in V.
  destruct (wrap_index_valid p Pn (V p Hp)) as [Ep _].
  destruct (wrap_index_valid (Z.of_nat b0) B ltac:(lia)) as [Eb _].
  rewrite Eb, Ep. reflexivity.
Qed.

(** An invalid position makes the gather raise [IndexError]. *)
Lemma forward_gather_invalid (X : tensor A) (P : tensor Z)
    (B Pn n : nat) (rest : list nat) :
  shape X = B :: Pn :: rest -> shape P = [B; n] -> wf_tensor P ->
  Exists (fun i => (i < - Z.of_nat Pn \/ Z.of_nat Pn <= i)%Z) (data P) ->
  forward_gather X P = Raise IndexError.
Proof.
  intros HX HP WP V.
  rewrite (forward_gather_unfold X P B B Pn n rest HX HP).
  assert (LP : length (data P) = B * n).
  { unfold wf_tensor, numel in WP. now rewrite HP, numel_pair in WP. }
  unfold broadcast1. rewrite Nat.eqb_refl. cbn [bind].
  unfold expand1. rewrite length_interleave, length_map, length_seq, LP.
  rewrite Nat.eqb_refl.
  fold (index_pairs B n (data P)).
  rewrite (mapM_raise _ IndexError); [reflexivity | |].
  - intros [b p] Hin.
    destruct (wrap_index b B) as [b'|[]] eqn:Eb; cbn [bind].
    + destruct (wrap_index p Pn) as [p'|[]] eqn:Ep; cbn [bind]; eauto.
      unfold wrap_index in Ep.
      destruct ((_ <=? _)%Z && _); discriminate.
    + now left.
    + unfold wrap_index in Eb.
      destruct ((_ <=? _)%Z && _); discriminate.
  - apply Exists_exists in V. destruct V as [p [Hp Hbad]].
    destruct (In_nth _ _ 0%Z Hp) as [j [Hj Ej]].
    exists (nth j (index_pairs B n (data P)) (0%Z, 0%Z)). split.
    + apply nth_In. rewrite length_index_pairs; lia.
    + assert (Hn : 0 < n) by nia.
      assert (Ej' : j = j / n * n + j mod n).
      { pose proof (Nat.div_mod_eq j n). lia. }
      rewrite Ej'.
      rewrite nth_index_pairs; try assumption.
      * rewrite <- Ej', Ej.
        rewrite wrap_index_nat. 2:{ apply Nat.Div0.div_lt_upper_bound. lia. }
        cbn [bind]. rewrite wrap_index_invalid by assumption. reflexivity.
      * apply Nat.Div0.div_lt_upper_bound. lia.
      * apply Nat.mod_upper_bound. lia.
Qed.

End GatherFacts.

(** * The reshape to [(batch_size, num_pred_positions, -1)] *)

Section ReshapeFacts.

Import Torch MaskLM.

Context {A : Type}.

Lemma infer_size_batch (B n N : nat) :
  infer_size [Z.of_nat B; Z.of_nat n; (-1)%Z] N =
    if (N =? B * n) || ((0 <? B * n) && (N mod (B * n) =? 0)) then
      if B * n =? 0 then Raise RuntimeError
      else Ok [B; n; N / (B * n)]
    else Raise RuntimeError.
Proof.
  unfold infer_size. cbn [infer_scan].
  destruct (Z.eqb_spec (Z.of_nat B) (-1)); [lia|].
  destruct (Z.leb_spec 0 (Z.of_nat B)); [|lia].
  destruct (Z.eqb_spec (Z.of_nat n) (-1)); [lia|].
  destruct (Z.leb_spec 0 (Z.of_nat n)); [|lia].
  cbn [Z.eqb Pos.eqb bind map set_nth].
  rewrite !Nat2Z.id, Nat.mul_1_l. reflexivity.
Qed.

Lemma reshape_batch (t : tensor A) (B n inner : nat) :
  0 < B -> 0 < n -> numel t = B * n * inner ->
  reshape t [Z.of_nat B; Z.of_nat n; (-1)%Z]
    = Ok (Tensor [B; n; inner] (data t)).
Proof.
  intros HB Hn HN. unfold reshape. rewrite infer_size_batch, HN.
  assert (Hpos : B * n <> 0) by nia.
  rewrite (Nat.mul_comm (B * n) inner), Nat.Div0.mod_mul, Nat.div_mul by lia.
  rewrite Nat.eqb_refl, andb_true_r.
  destruct (Nat.ltb_spec 0 (B * n)); [|lia].
  rewrite orb_true_r.
  destruct (Nat.eqb_spec (B * n) 0); [lia|]. reflexivity.
Qed.

(** No tensor reshapes to [(batch_size, num_pred_positions, -1)] when one of
    the two given dimensions is zero. *)
Lemma reshape_batch_empty (t : tensor A) (B n : nat) :
  B * n = 0 ->
  reshape t [Z.of_nat B; Z.of_nat n; (-1)%Z] = Raise RuntimeError.
Proof.
  intro H0. unfold reshape. rewrite infer_size_batch, H0. cbn [Nat.eqb].
  destruct (_ || _); reflexivity.
Qed.

Lemma offset_bound (B Pn r w0 w1 : nat) :
  w0 < B -> w1 < Pn -> (w0 * Pn + w1) * r + r <= B * (Pn * r).
Proof.
  intros H0 H1.
  assert (H : w0 * Pn + w1 + 1 <= B * Pn) by nia.
  apply (Nat.mul_le_mono_r _ _ r) in H. lia.
Qed.

Lemma pick_length (X : tensor A) (B Pn b0 : nat) (rest : list nat) (p : Z) :
  shape X = B :: Pn :: rest -> wf_tensor X -> b0 < B ->
  (- Z.of_nat Pn <= p < Z.of_nat Pn)%Z ->
  length (pick B Pn (numel_of rest) (data X) (Z.of_nat b0, p))
    = numel_of rest.
Proof.
  intros HX WX Hb Hp. unfold pick. cbn [fst snd].
  destruct (wrap_index_valid p Pn Hp) as [_ Hlt].
  destruct (wrap_index_valid (Z.of_nat b0) B ltac:(lia)) as [_ Hlt0].
  apply slice_length. unfold wf_tensor, numel in WX.
  rewrite HX in WX. cbn [numel_of fold_right] in WX. fold (numel_of rest) in WX.
  rewrite WX. now apply offset_bound.
Qed.

Lemma picked_uniform (X : tensor A) (P : tensor Z) (B Pn n : nat)
    (rest : list nat) :
  shape X = B :: Pn :: rest -> wf_tensor X -> positions_valid P Pn ->
  Forall (fun r => length r = numel_of rest)
         (map (pick B Pn (numel_of rest) (data X))
              (index_pairs B n (data P))).
Proof.
  intros HX WX V. apply Forall_forall. intros r Hr.
  apply in_map_iff in Hr. destruct Hr as [[b p] [<- Hin]].
  apply in_index_pairs in Hin. destruct Hin as [[b0 [-> Hb0]] Hp].
  unfold positions_valid in V. rewrite Forall_forall in V.
  apply (pick_length X B Pn b0 rest p); auto.
Qed.

(** The tensor handed to the MLP. *)
Lemma forward_masked_ok (X : tensor A) (P : tensor Z)
    (B Pn n : nat) (rest : list nat) :
  shape X = B :: Pn :: rest -> wf_tensor X ->
  shape P = [B; n] -> wf_tensor P ->
  0 < B -> 0 < n -> positions_valid P Pn ->
  forward_masked X P =
    Ok (Tensor [B; n; numel_of rest]
               (concat (map (pick B Pn (numel_of rest) (data X))
                            (index_pairs B n (data P))))).
Proof.
  intros HX WX HP WP HB Hn V. unfold forward_masked.
  rewrite (forward_gather_ok X P B Pn n rest HX HP WP V). cbn [bind].
  apply reshape_batch; auto.
Qed.

Lemma wrapped_nat (b size : nat) : wrapped (Z.of_nat b) size = b.
Proof.
  unfold wrapped. destruct (Z.ltb_spec (Z.of_nat b) 0); [lia|].
  apply Nat2Z.id.
Qed.

(** Reading entry [(b, k)] of a three-dimensional tensor whose storage is a
    concatenation of uniform rows. *)
Lemma select2_concat (ls : list (list A)) (B n inner b k : nat) :
  Forall (fun r => length r = inner) ls -> length ls = B * n ->
  b < B -> k < n ->
  select2 (Tensor [B; n; inner] (concat ls)) (Z.of_nat b) (Z.of_nat k)
    = Ok (nth (b * n + k) ls []).
Proof.
  intros U L Hb Hk. unfold select2. cbn [shape data].
  rewrite !wrap_index_nat by assumption. cbn [bind].
  cbn [numel_of fold_right]. rewrite Nat.mul_1_r.
  rewrite slice_concat_uniform; [reflexivity | assumption | nia].
Qed.

Lemma select2_pick (X : tensor A) (B Pn b : nat) (rest : list nat) (p : Z) :
  shape X = B :: Pn :: rest -> b < B ->
  (- Z.of_nat Pn <= p < Z.of_nat Pn)%Z ->
  select2 X (Z.of_nat b) p
    = Ok (pick B Pn (numel_of rest) (data X) (Z.of_nat b, p)).
Proof.
  intros HX Hb Hp. unfold select2, pick. rewrite HX. cbn [fst snd].
  rewrite wrap_index_nat by assumption. cbn [bind].
  destruct (wrap_index_valid p Pn Hp) as [-> _]. cbn [bind].
  now rewrite wrapped_nat.
Qed.

Lemma item2_valid (P : tensor Z) (B n b k : nat) (size : nat) :
  shape P = [B; n] -> wf_tensor P -> positions_valid P size ->
  b < B -> k < n ->
  (- Z.of_nat size <= item2 P b k < Z.of_nat size)%Z.
Proof.
  intros HP WP V Hb Hk. unfold positions_valid in V.
  rewrite Forall_forall in V. apply V. unfold item2. rewrite HP. cbn [nth].
  apply nth_In. unfold wf_tensor, numel in WP.
  rewrite HP, numel_pair in WP. nia.
Qed.

End ReshapeFacts.

(** * What [MaskLM.forward] gathers *)

Section GatherTheorems.

Import Torch MaskLM.

Context {A : Type}.

Lemma wf_masked (X : tensor A) (P : tensor Z) (B Pn n : nat)
    (rest : list nat) :
  shape X = B :: Pn :: rest -> wf_tensor X ->
  shape P = [B; n] -> wf_tensor P -> positions_valid P Pn ->
  length (concat (map (pick B Pn (numel_of rest) (data X))
                      (index_pairs B n (data P))))
    = B * n * numel_of rest.
Proof.
  intros HX WX HP WP V.
  rewrite (length_concat_uniform (numel_of rest))
    by (apply (picked_uniform X P B Pn n rest); assumption).
  rewrite length_map, length_index_pairs; [reflexivity|].
  unfold wf_tensor, numel in WP. now rewrite HP, numel_pair in WP.
Qed.

(** C3 (amended). For a hidden-state tensor of shape
    [(batch, positions, features)] and valid prediction positions of shape
    [(batch, num_predictions)] with [batch >= 1] and [num_predictions >= 1],
    the tensor [forward] hands to the MLP has shape
    [(batch, num_predictions, features)] and its entry [(b, k)] is exactly
    the vector [X[b, P[b][k]]]. *)
Theorem gathered_vectors_exact (X : tensor A) (P : tensor Z)
    (B Pn Fd n : nat) :
  shape X = [B; Pn; Fd] -> wf_tensor X ->
  shape P = [B; n] -> wf_tensor P ->
  0 < B -> 0 < n -> positions_valid P Pn ->
  exists G,
    forward_masked X P = Ok G /\
    shape G = [B; n; Fd] /\
    wf_tensor G /\
    forall b k, b < B -> k < n ->
      exists v,
        select2 X (Z.of_nat b) (item2 P b k) = Ok v /\
        select2 G (Z.of_nat b) (Z.of_nat k) = Ok v.
Proof.
  intros HX WX HP WP HB Hn V.
  pose proof (forward_masked_ok X P B Pn n [Fd] HX WX HP WP HB Hn V) as E.
  pose proof (wf_masked X P B Pn n [Fd] HX WX HP WP V) as L.
  pose proof (picked_uniform X P B Pn n [Fd] HX WX V) as U.
  assert (LP : length (data P) = B * n).
  { unfold wf_tensor, numel in WP. now rewrite HP, numel_pair in WP. }
  assert (F1 : numel_of [Fd] = Fd) by (simpl; lia).
  rewrite F1 in E, L, U.
  eexists. split; [exact E|]. split; [reflexivity|]. split.
  - unfold wf_tensor, numel. cbn [shape data]. rewrite L. simpl. lia.
  - intros b k Hb Hk.
    pose proof (item2_valid P B n b k Pn HP WP V Hb Hk) as Hi.
    eexists. split.
    + rewrite (select2_pick X B Pn b [Fd] _ HX Hb Hi). rewrite F1.
      reflexivity.
    + rewrite select2_concat; auto.
      2:{ rewrite length_map. now apply length_index_pairs. }
      f_equal.
      rewrite (nth_indep _ [] (pick B Pn Fd (data X) (0%Z, 0%Z)))
        by (rewrite length_map, length_index_pairs by assumption; nia).
      rewrite map_nth, nth_index_pairs by assumption.
      unfold item2. rewrite HP. reflexivity.
Qed.

(** C10. With matching shapes the gather of [forward] succeeds whenever
    every position [i] satisfies [-P <= i < P]; the vector gathered for a
    negative [i] is the one at position [P + i]; and the gather raises
    [IndexError] as soon as some position is [>= P] or [< -P]. *)
Theorem negative_positions_count_from_end (X : tensor A) (P : tensor Z)
    (B Pn Fd n : nat) :
  shape X = [B; Pn; Fd] -> wf_tensor X ->
  shape P = [B; n] -> wf_tensor P ->
  (positions_valid P Pn ->
   exists G,
     forward_gather X P = Ok (B, n, G) /\
     shape G = [B * n; Fd] /\
     forall b k, b < B -> k < n ->
       let i := item2 P b k in
       exists v,
         select2 X (Z.of_nat b)
                 (if (i <? 0)%Z then Z.of_nat Pn + i else i)%Z = Ok v /\
         select1 G (Z.of_nat (b * n + k)) = Ok v) /\
  (Exists (fun i => (i < - Z.of_nat Pn \/ Z.of_nat Pn <= i)%Z) (data P) ->
   forward_gather X P = Raise IndexError).
Proof.
  intros HX WX HP WP. split.
  - intro V.
    pose proof (forward_gather_ok X P B Pn n [Fd] HX HP WP V) as E.
    pose proof (picked_uniform X P B Pn n [Fd] HX WX V) as U.
    assert (LP : length (data P) = B * n).
    { unfold wf_tensor, numel in WP. now rewrite HP, numel_pair in WP. }
    assert (F1 : numel_of [Fd] = Fd) by (simpl; lia).
    rewrite F1 in E, U.
    eexists. split; [exact E|]. split; [reflexivity|].
    intros b k Hb Hk i.
    pose proof (item2_valid P B n b k Pn HP WP V Hb Hk) as Hi.
    fold i in Hi.
    assert (Hj : b * n + k < B * n) by nia.
    exists (pick B Pn Fd (data X) (Z.of_nat b, i)). split.
    + rewrite (select2_pick X B Pn b [Fd] _ HX Hb).
      2:{ destruct (Z.ltb_spec i 0); lia. }
      rewrite F1. f_equal. unfold pick. cbn [fst snd]. do 3 f_equal.
      unfold wrapped.
      destruct (Z.ltb_spec i 0) as [Hneg|Hpos].
      * destruct (Z.ltb_spec (Z.of_nat Pn + i) 0); [lia|]. f_equal. lia.
      * destruct (Z.ltb_spec i 0); [lia|]. reflexivity.
    + unfold select1. cbn [shape data].
      rewrite wrap_index_nat by assumption. cbn [bind]. rewrite F1.
      rewrite slice_concat_uniform; auto.
      2:{ rewrite length_map, length_index_pairs by assumption. exact Hj. }
      f_equal.
      rewrite (nth_indep _ [] (pick B Pn Fd (data X) (0%Z, 0%Z)))
        by (rewrite length_map, length_index_pairs by assumption; exact Hj).
      rewrite map_nth, nth_index_pairs by assumption.
      unfold i, item2. rewrite HP. reflexivity.
  - intro V. exact (forward_gather_invalid X P B Pn n [Fd] HX HP WP V).
Qed.

(** C9 (amended). For a position tensor of shape [(B', n)] and a
    hidden-state tensor of batch size [B]: when [B' = B], [B >= 1], [n >= 1]
    and the positions are valid, both index lists have exactly [B * n]
    entries and the gather and the reshape succeed; when [B' <> B] the
    gather or the reshape raises, unless [n = 1] and one of [B], [B'] is 1,
    the case in which the index tensors broadcast. *)
Theorem batch_dimensions_must_agree (X : tensor A) (P : tensor Z)
    (B B' Pn Fd n : nat) :
  shape X = [B; Pn; Fd] -> wf_tensor X ->
  shape P = [B'; n] -> wf_tensor P ->
  (B' = B -> 0 < B -> 0 < n -> positions_valid P Pn ->
   reshape P [(-1)%Z] = Ok (Tensor [B * n] (data P)) /\
   length (data P) = B * n /\
   length (data (repeat_interleave (arange 0 (Z.of_nat B)) n)) = B * n /\
   exists G, forward_masked X P = Ok G /\ shape G = [B; n; Fd]) /\
  (B' <> B -> n <> 1 \/ (B <> 1 /\ B' <> 1) ->
   exists e, forward_masked X P = Raise e).
Proof.
  intros HX WX HP WP. split.
  - intros -> HB Hn V.
    assert (LP : length (data P) = B * n).
    { unfold wf_tensor, numel in WP. now rewrite HP, numel_pair in WP. }
    split; [|split; [exact LP|split]].
    + rewrite reshape_flat. unfold numel. now rewrite HP, numel_pair.
    + rewrite arange_from_zero. unfold repeat_interleave. cbn [data].
      now rewrite length_interleave, length_map, length_seq.
    + pose proof (forward_masked_ok X P B Pn n [Fd] HX WX HP WP HB Hn V) as E.
      replace (numel_of [Fd]) with Fd in E by (simpl; lia).
      eexists. split; [exact E | reflexivity].
  - intros Hne Hcase. unfold forward_masked.
    rewrite (forward_gather_unfold X P B B' Pn n [Fd] HX HP).
    destruct (Nat.eq_dec n 0) as [->|Hn0].
    + destruct (broadcast1 _ _) as [len|e]; cbn [bind]; [|eauto].
      destruct (mapM _ _) as [picked|e]; cbn [bind]; [|eauto].
      exists RuntimeError. apply reshape_batch_empty. lia.
    + assert (Hb : broadcast1 (B * n) (B' * n) = Raise IndexError).
      { unfold broadcast1.
        destruct (Nat.eqb_spec (B * n) (B' * n)) as [E|_].
        { apply Nat.mul_cancel_r in E; [congruence | exact Hn0]. }
        destruct (Nat.eqb_spec (B * n) 1) as [E|_].
        { apply Nat.eq_mul_1 in E. lia. }
        destruct (Nat.eqb_spec (B' * n) 1) as [E|_].
        { apply Nat.eq_mul_1 in E. lia. }
        reflexivity. }
      rewrite Hb. cbn [bind]. eauto.
Qed.

End GatherTheorems.

(** * The layers of the MLP *)

Section HeadFacts.

Import Torch MaskLM.

Context {F : Type} {num : Numerics F}.

Lemma map_last_concat {T : Type} (f : list T -> list T) (k out : nat)
    (sh : list nat) (ls : list (list T)) :
  Forall (fun r => length r = k) ls -> numel_of sh = length ls ->
  map_last f k out (Tensor (sh ++ [k]) (concat ls))
    = Ok (Tensor (sh ++ [out]) (concat (map f ls))).
Proof.
  intros U L. unfold map_last. cbn [shape data].
  rewrite rev_app_distr. cbn [rev app].
  rewrite Nat.eqb_refl, rev_involutive, L, rows_concat by assumption.
  reflexivity.
Qed.

Lemma linear_vec_length (l : linear) (x : list F) :
  wf_linear l -> length (linear_vec l x) = out_features l.
Proof.
  intros [Hw [_ Hb]]. unfold linear_vec.
  rewrite length_map, length_combine, Hw, Hb. apply Nat.min_id.
Qed.

Lemma relu_vec_length (x : list F) : length (relu_vec x) = length x.
Proof. apply length_map. Qed.

Lemma layer_norm_vec_length (ln : layer_norm) (x : list F) (w : nat) :
  length (gamma ln) = w -> length (beta ln) = w -> length x = w ->
  length (layer_norm_vec ln x) = w.
Proof.
  intros Hg Hb Hx. unfold layer_norm_vec.
  rewrite length_map, !length_combine, Hg, Hb, Hx. lia.
Qed.

Lemma relu_concat (sh : list nat) (ls : list (list F)) :
  relu (Tensor sh (concat ls)) = Tensor sh (concat (map relu_vec ls)).
Proof.
  unfold relu, relu_vec. cbn [shape data]. now rewrite concat_map.
Qed.

Lemma wf_materialize (layer out inp : nat) :
  wf_linear (materialize layer out inp).
Proof.
  unfold wf_linear, materialize. cbn.
  rewrite !length_map, !length_seq. repeat split.
  apply Forall_forall. intros r Hr. apply in_map_iff in Hr.
  destruct Hr as [i [<- _]]. now rewrite length_map, length_seq.
Qed.

Lemma wf_realize (layer : nat) (st : lazy_linear) (inp : nat) :
  wf_lazy st -> wf_linear (realize layer st inp).
Proof.
  destruct st; simpl; [intros _; apply wf_materialize | auto].
Qed.

Lemma out_features_realize (layer : nat) (st : lazy_linear) (inp : nat) :
  out_features (realize layer st inp) = out_width st.
Proof. destruct st; reflexivity. Qed.

Lemma Forall_map_length {T U : Type} (f : T -> list U) (w : nat)
    (ls : list T) :
  (forall r, In r ls -> length (f r) = w) ->
  Forall (fun r => length r = w) (map f ls).
Proof.
  intro H. apply Forall_forall. intros r Hr. apply in_map_iff in Hr.
  destruct Hr as [x [<- Hx]]. auto.
Qed.

(** A lazy layer on a tensor whose last axis it accepts. *)
Lemma lazy_forward_concat (layer : nat) (st : lazy_linear) (k : nat)
    (sh : list nat) (ls : list (list F)) :
  match st with
  | Uninitialized _ => True
  | Materialized l => in_features l = k
  end ->
  Forall (fun r => length r = k) ls -> numel_of sh = length ls ->
  lazy_forward layer st (Tensor (sh ++ [k]) (concat ls))
    = (Ok (Tensor (sh ++ [out_width st])
                  (concat (map (linear_vec (realize layer st k)) ls))),
       Materialized (realize layer st k)).
Proof.
  intros Hacc U L. unfold lazy_forward. destruct st as [out|l].
  - cbn [shape]. rewrite rev_app_distr. cbn [rev app].
    unfold linear_forward. cbn [realize out_width].
    change (in_features (materialize layer out k)) with k.
    change (out_features (materialize layer out k)) with out.
    now rewrite map_last_concat.
  - unfold linear_forward. cbn [realize out_width]. rewrite Hacc.
    now rewrite map_last_concat.
Qed.

(** The whole [nn.Sequential] on a tensor of uniform rows. *)
Lemma mlp_concat (m : module) (k : nat) (sh : list nat)
    (ls : list (list F)) :
  wf_module m -> accepts m k ->
  Forall (fun r => length r = k) ls -> numel_of sh = length ls ->
  mlp m (Tensor (sh ++ [k]) (concat ls))
    = (Ok (Tensor (sh ++ [vocab_size m])
                  (concat (map (mlp_vec (realize 0 (fc1 m) k) (norm m)
                                        (realize 3 (fc2 m) (num_hiddens m)))
                               ls))),
       Module_ (Materialized (realize 0 (fc1 m) k)) (norm m)
               (Materialized (realize 3 (fc2 m) (num_hiddens m)))).
Proof.
  intros [W1 [W2 [Hn [Hg [Hb H2]]]]] Hacc U L. unfold mlp.
  rewrite (lazy_forward_concat 0 (fc1 m) k sh ls Hacc U L).
  rewrite relu_concat.
  fold (num_hiddens m).
  set (l1 := realize 0 (fc1 m) k).
  assert (U1 : Forall (fun r => length r = num_hiddens m)
                      (map relu_vec (map (linear_vec l1) ls))).
  { rewrite map_map. apply Forall_map_length. intros r _.
    rewrite relu_vec_length, linear_vec_length by (now apply wf_realize).
    apply out_features_realize. }
  unfold layer_norm_forward. rewrite Hn.
  rewrite map_last_concat by (rewrite ?length_map; assumption).
  assert (U2 : Forall (fun r => length r = num_hiddens m)
                      (map (layer_norm_vec (norm m))
                           (map relu_vec (map (linear_vec l1) ls)))).
  { apply Forall_map_length. intros r Hr.
    apply layer_norm_vec_length; auto.
    rewrite Forall_forall in U1. auto. }
  rewrite (lazy_forward_concat 3 (fc2 m) (num_hiddens m))
    by (rewrite ?length_map; assumption).
  unfold vocab_size, mlp_vec. rewrite !map_map. reflexivity.
Qed.

(** [forward] on matching shapes and valid positions: every index pair is
    gathered and mapped through the MLP, in order. *)
Lemma forward_ok (m : module) (X : tensor F) (P : tensor Z)
    (B Pn Fd n : nat) :
  wf_module m -> accepts m Fd ->
  shape X = [B; Pn; Fd] -> wf_tensor X ->
  shape P = [B; n] -> wf_tensor P ->
  0 < B -> 0 < n -> positions_valid P Pn ->
  forward m X P
    = (Ok (Tensor [B; n; vocab_size m]
                  (concat (map (fun bp =>
                                  mlp_vec (realize 0 (fc1 m) Fd) (norm m)
                                          (realize 3 (fc2 m) (num_hiddens m))
                                          (pick B Pn Fd (data X) bp))
                               (index_pairs B n (data P))))),
       Module_ (Materialized (realize 0 (fc1 m) Fd)) (norm m)
               (Materialized (realize 3 (fc2 m) (num_hiddens m)))).
Proof.
  intros Wm Hacc HX WX HP WP HB Hn V. unfold forward.
  rewrite (forward_masked_ok X P B Pn n [Fd] HX WX HP WP HB Hn V).
  pose proof (picked_uniform X P B Pn n [Fd] HX WX V) as U.
  replace (numel_of [Fd]) with Fd in * by (simpl; lia).
  change [B; n; Fd] with ([B; n] ++ [Fd]).
  rewrite (mlp_concat m Fd [B; n]); auto.
  - rewrite map_map. reflexivity.
  - rewrite length_map, length_index_pairs; [simpl; lia|].
    unfold wf_tensor, numel in WP. now rewrite HP, numel_pair in WP.
Qed.

End HeadFacts.

(** * What [MaskLM.forward] returns *)

Section ForwardTheorems.

Import Torch MaskLM.

Context {F : Type} {num : Numerics F}.

Lemma mlp_vec_length (m : module) (Fd : nat) (x : list F) :
  wf_module m ->
  length (mlp_vec (realize 0 (fc1 m) Fd) (norm m)
                  (realize 3 (fc2 m) (num_hiddens m)) x)
    = vocab_size m.
Proof.
  intros [_ [W2 _]]. unfold mlp_vec.
  rewrite linear_vec_length by (now apply wf_realize).
  apply out_features_realize.
Qed.

Lemma in_features_fc1 (m : module) (Fd : nat) :
  accepts m Fd -> in_features (realize 0 (fc1 m) Fd) = Fd.
Proof.
  unfold accepts. destruct (fc1 m); [reflexivity | auto].
Qed.

Lemma in_features_fc2 (m : module) :
  wf_module m ->
  in_features (realize 3 (fc2 m) (num_hiddens m)) = num_hiddens m.
Proof.
  intros [_ [_ [_ [_ [_ H2]]]]]. destruct (fc2 m); [reflexivity | auto].
Qed.

(** C4 (amended). For a hidden-state tensor of shape
    [(batch, positions, features)] and valid positions of shape
    [(batch, num_predictions)] with [batch >= 1] and
    [num_predictions >= 1], [forward] returns a tensor of shape
    [(batch, num_predictions, vocab_size)] whose entry [(b, k)] is the
    gathered vector [X[b, P[b][k]]] sent through a linear projection to
    [num_hiddens] values, the rectification, the layer normalisation and a
    linear projection to [vocab_size] values. *)
Theorem forward_shape_and_transform (m : module) (X : tensor F)
    (P : tensor Z) (B Pn Fd n : nat) :
  wf_module m -> accepts m Fd ->
  shape X = [B; Pn; Fd] -> wf_tensor X ->
  shape P = [B; n] -> wf_tensor P ->
  0 < B -> 0 < n -> positions_valid P Pn ->
  exists Y l1 l2,
    forward m X P
      = (Ok Y, Module_ (Materialized l1) (norm m) (Materialized l2)) /\
    shape Y = [B; n; vocab_size m] /\
    wf_tensor Y /\
    in_features l1 = Fd /\ out_features l1 = num_hiddens m /\
    in_features l2 = num_hiddens m /\ out_features l2 = vocab_size m /\
    forall b k, b < B -> k < n ->
      exists x,
        select2 X (Z.of_nat b) (item2 P b k) = Ok x /\
        length (linear_vec l1 x) = num_hiddens m /\
        length (layer_norm_vec (norm m) (relu_vec (linear_vec l1 x)))
          = num_hiddens m /\
        select2 Y (Z.of_nat b) (Z.of_nat k)
          = Ok (linear_vec l2
                  (layer_norm_vec (norm m)
                     (relu_vec (linear_vec l1 x)))) /\
        length (linear_vec l2
                  (layer_norm_vec (norm m) (relu_vec (linear_vec l1 x))))
          = vocab_size m.
Proof.
  intros Wm Hacc HX WX HP WP HB Hn V.
  pose proof (forward_ok m X P B Pn Fd n Wm Hacc HX WX HP WP HB Hn V) as E.
  set (l1 := realize 0 (fc1 m) Fd) in *.
  set (l2 := realize 3 (fc2 m) (num_hiddens m)) in *.
  assert (LP : length (data P) = B * n).
  { unfold wf_tensor, numel in WP. now rewrite HP, numel_pair in WP. }
  assert (U : Forall (fun r => length r = vocab_size m)
                (map (fun bp => mlp_vec l1 (norm m) l2
                                        (pick B Pn Fd (data X) bp))
                     (index_pairs B n (data P)))).
  { apply Forall_map_length. intros r _. now apply mlp_vec_length. }
  pose proof (in_features_fc2 m Wm) as I2.
  destruct Wm as [W1 [W2 [Hnorm [Hg [Hbeta H2]]]]].
  exists (Tensor [B; n; vocab_size m]
            (concat (map (fun bp => mlp_vec l1 (norm m) l2
                                            (pick B Pn Fd (data X) bp))
                         (index_pairs B n (data P))))), l1, l2.
  split; [exact E|]. split; [reflexivity|]. split.
  { unfold wf_tensor, numel. cbn [shape data].
    rewrite (length_concat_uniform (vocab_size m)) by exact U.
    rewrite length_map, length_index_pairs by assumption. simpl. lia. }
  split. { now apply in_features_fc1. }
  split. { apply out_features_realize. }
  split. { exact I2. }
  split. { apply out_features_realize. }
  intros b k Hb Hk.
  pose proof (item2_valid P B n b k Pn HP WP V Hb Hk) as Hi.
  exists (pick B Pn Fd (data X) (Z.of_nat b, item2 P b k)).
  assert (L1 : length (linear_vec l1 (pick B Pn Fd (data X)
                                            (Z.of_nat b, item2 P b k)))
               = num_hiddens m).
  { rewrite linear_vec_length by (now apply wf_realize).
    apply out_features_realize. }
  split.
  { rewrite (select2_pick X B Pn b [Fd] _ HX Hb Hi).
    replace (numel_of [Fd]) with Fd by (simpl; lia). reflexivity. }
  split; [exact L1|]. split.
  { apply layer_norm_vec_length; auto. now rewrite relu_vec_length. }
  split.
  - rewrite select2_concat; auto.
    2:{ rewrite length_map. now apply length_index_pairs. }
    f_equal.
    rewrite (nth_indep _ [] ((fun bp => mlp_vec l1 (norm m) l2
                                (pick B Pn Fd (data X) bp)) (0%Z, 0%Z)))
      by (rewrite length_map, length_index_pairs by assumption; nia).
    rewrite (map_nth (fun bp => mlp_vec l1 (norm m) l2
                                        (pick B Pn Fd (data X) bp))).
    rewrite nth_index_pairs by assumption.
    unfold item2. rewrite HP. reflexivity.
  - rewrite linear_vec_length by (now apply wf_realize).
    apply out_features_realize.
Qed.

Lemma pick_from_batch_row (X : tensor F) (B Pn Fd b : nat) (p : Z) :
  shape X = [B; Pn; Fd] -> b < B ->
  (- Z.of_nat Pn <= p < Z.of_nat Pn)%Z ->
  pick B Pn Fd (data X) (Z.of_nat b, p)
    = slice (slice (data X) (b * (Pn * Fd)) (Pn * Fd)) (wrapped p Pn * Fd) Fd.
Proof.
  intros HX Hb Hp. unfold pick. cbn [fst snd]. rewrite wrapped_nat.
  destruct (wrap_index_valid p Pn Hp) as [_ Hlt].
  rewrite slice_slice by nia. f_equal. lia.
Qed.

Lemma select1_batch_row {T : Type} (X : tensor T) (B : nat)
    (rest : list nat) (b : nat) :
  shape X = B :: rest -> b < B ->
  select1 X (Z.of_nat b)
    = Ok (slice (data X) (b * numel_of rest) (numel_of rest)).
Proof.
  intros HX Hb. unfold select1. rewrite HX.
  now rewrite wrap_index_nat.
Qed.

Lemma item2_from_batch_row (P : tensor Z) (B n b k : nat) :
  shape P = [B; n] -> k < n ->
  item2 P b k = nth k (slice (data P) (b * n) n) 0%Z.
Proof.
  intros HP Hk. unfold item2. rewrite HP. cbn [nth].
  now rewrite nth_slice.
Qed.

Lemma Ok_inj {T : Type} (x y : T) : Ok x = Ok y -> x = y.
Proof. congruence. Qed.

(** Two calls that agree on batch element [b], under the conditions that
    make [forward] return. *)
Lemma no_leakage_when_valid (m : module) (X X' : tensor F)
    (P P' : tensor Z) (B Pn Fd n b : nat) :
  wf_module m -> accepts m Fd ->
  shape X = [B; Pn; Fd] -> wf_tensor X ->
  shape X' = [B; Pn; Fd] -> wf_tensor X' ->
  shape P = [B; n] -> wf_tensor P ->
  shape P' = [B; n] -> wf_tensor P' ->
  0 < n -> b < B ->
  positions_valid P Pn -> positions_valid P' Pn ->
  select1 X (Z.of_nat b) = select1 X' (Z.of_nat b) ->
  select1 P (Z.of_nat b) = select1 P' (Z.of_nat b) ->
  exists Y Y' m1,
    forward m X P = (Ok Y, m1) /\
    forward m X' P' = (Ok Y', m1) /\
    (exists row, select1 Y (Z.of_nat b) = Ok row /\
                 select1 Y' (Z.of_nat b) = Ok row /\
                 length row = n * vocab_size m) /\
    (forall k, k < n ->
       select2 Y (Z.of_nat b) (Z.of_nat k)
         = select2 Y' (Z.of_nat b) (Z.of_nat k)) /\
    (forall b1 k1 b2 k2, b1 < B -> k1 < n -> b2 < B -> k2 < n ->
       select2 X (Z.of_nat b1) (item2 P b1 k1)
         = select2 X' (Z.of_nat b2) (item2 P' b2 k2) ->
       select2 Y (Z.of_nat b1) (Z.of_nat k1)
         = select2 Y' (Z.of_nat b2) (Z.of_nat k2)).
Proof.
  intros Wm Hacc HX WX HX' WX' HP WP HP' WP' Hn Hb V V' EX EP.
  assert (HB : 0 < B) by lia.
  pose proof (forward_ok m X P B Pn Fd n Wm Hacc HX WX HP WP HB Hn V) as E.
  pose proof (forward_ok m X' P' B Pn Fd n Wm Hacc HX' WX' HP' WP' HB Hn V')
    as E'.
  set (g := mlp_vec (realize 0 (fc1 m) Fd) (norm m)
                    (realize 3 (fc2 m) (num_hiddens m))) in *.
  set (V0 := vocab_size m) in *.
  assert (LP : length (data P) = B * n).
  { unfold wf_tensor, numel in WP. now rewrite HP, numel_pair in WP. }
  assert (LP' : length (data P') = B * n).
  { unfold wf_tensor, numel in WP'. now rewrite HP', numel_pair in WP'. }
  assert (U : forall (Q : tensor Z) (Z0 : tensor F),
             Forall (fun r => length r = V0)
                    (map (fun bp => g (pick B Pn Fd (data Z0) bp))
                         (index_pairs B n (data Q)))).
  { intros Q Z0. apply Forall_map_length. intros r _.
    now apply mlp_vec_length. }
  (* entry (b1, k1) of either output *)
  assert (S2 : forall (Z0 : tensor F) (Q : tensor Z) b1 k1,
             shape Q = [B; n] -> length (data Q) = B * n ->
             b1 < B -> k1 < n ->
             select2 (Tensor [B; n; V0]
                        (concat (map (fun bp => g (pick B Pn Fd (data Z0) bp))
                                     (index_pairs B n (data Q)))))
                     (Z.of_nat b1) (Z.of_nat k1)
               = Ok (g (pick B Pn Fd (data Z0)
                             (Z.of_nat b1, item2 Q b1 k1)))).
  { intros Z0 Q b1 k1 HQ LQ Hb1 Hk1.
    rewrite select2_concat; auto.
    2:{ rewrite length_map. now apply length_index_pairs. }
    f_equal.
    rewrite (nth_indep _ [] ((fun bp => g (pick B Pn Fd (data Z0) bp))
                               (0%Z, 0%Z)))
      by (rewrite length_map, length_index_pairs by assumption; nia).
    rewrite (map_nth (fun bp => g (pick B Pn Fd (data Z0) bp))).
    rewrite nth_index_pairs by assumption.
    unfold item2. rewrite HQ. reflexivity. }
  (* the inputs agree on batch element b *)
  rewrite (select1_batch_row X B [Pn; Fd] b HX Hb) in EX.
  rewrite (select1_batch_row X' B [Pn; Fd] b HX' Hb) in EX.
  apply Ok_inj in EX. rewrite numel_pair in EX.
  rewrite (select1_batch_row P B [n] b HP Hb) in EP.
  rewrite (select1_batch_row P' B [n] b HP' Hb) in EP.
  apply Ok_inj in EP.
  replace (numel_of [n]) with n in EP by (simpl; lia).
  assert (Eitem : forall k, k < n -> item2 P b k = item2 P' b k).
  { intros k Hk.
    rewrite (item2_from_batch_row P B n b k HP Hk).
    rewrite (item2_from_batch_row P' B n b k HP' Hk). now rewrite EP. }
  assert (Epick : forall k, k < n ->
             pick B Pn Fd (data X) (Z.of_nat b, item2 P b k)
               = pick B Pn Fd (data X') (Z.of_nat b, item2 P' b k)).
  { intros k Hk.
    pose proof (item2_valid P B n b k Pn HP WP V Hb Hk) as Hi.
    rewrite <- (Eitem k Hk).
    rewrite (pick_from_batch_row X B Pn Fd b _ HX Hb Hi).
    rewrite (pick_from_batch_row X' B Pn Fd b _ HX' Hb Hi).
    now rewrite EX. }
  assert (Erow : forall k, k < n ->
             select2 (Tensor [B; n; V0]
                        (concat (map (fun bp => g (pick B Pn Fd (data X) bp))
                                     (index_pairs B n (data P)))))
                     (Z.of_nat b) (Z.of_nat k)
             = select2 (Tensor [B; n; V0]
                        (concat (map (fun bp => g (pick B Pn Fd (data X') bp))
                                     (index_pairs B n (data P')))))
                     (Z.of_nat b) (Z.of_nat k)).
  { intros k Hk. rewrite !S2 by assumption. now rewrite Epick. }
  do 3 eexists. split; [exact E|]. split; [exact E'|].
  split; [|split].
  - rewrite !(select1_batch_row _ B [n; V0] b) by (auto; reflexivity).
    cbn [data]. rewrite numel_pair.
    assert (Len : forall (Z0 : tensor F) (Q : tensor Z),
               length (data Q) = B * n ->
               length (concat (map (fun bp => g (pick B Pn Fd (data Z0) bp))
                                   (index_pairs B n (data Q))))
                 = B * n * V0).
    { intros Z0 Q LQ. rewrite (length_concat_uniform V0) by apply U.
      now rewrite length_map, length_index_pairs. }
    eexists. split; [reflexivity|]. split.
    + f_equal. symmetry.
      apply slice_rows_ext.
      * rewrite Len by assumption. nia.
      * rewrite Len by assumption. nia.
      * intros j Hj. specialize (Erow j Hj).
        unfold select2 in Erow. cbn [shape data] in Erow.
        rewrite !wrap_index_nat in Erow by assumption.
        cbn [bind] in Erow. apply Ok_inj in Erow.
        replace (numel_of [V0]) with V0 in Erow by (simpl; lia).
        replace (b * (n * V0) + j * V0) with ((b * n + j) * V0) by lia.
        exact Erow.
    + apply slice_length. rewrite Len by assumption. nia.
  - exact Erow.
  - intros b1 k1 b2 k2 Hb1 Hk1 Hb2 Hk2 Esel.
    rewrite !S2 by assumption.
    pose proof (item2_valid P B n b1 k1 Pn HP WP V Hb1 Hk1) as Hi1.
    pose proof (item2_valid P' B n b2 k2 Pn HP' WP' V' Hb2 Hk2) as Hi2.
    rewrite (select2_pick X B Pn b1 [Fd] _ HX Hb1 Hi1) in Esel.
    rewrite (select2_pick X' B Pn b2 [Fd] _ HX' Hb2 Hi2) in Esel.
    apply Ok_inj in Esel.
    replace (numel_of [Fd]) with Fd in Esel by (simpl; lia).
    now rewrite Esel.
Qed.

Lemma forward_masked_empty {T : Type} (X : tensor T) (P : tensor Z)
    (B B' Pn n : nat) (rest : list nat) :
  shape X = B :: Pn :: rest -> shape P = [B'; n] -> B * n = 0 ->
  exists e, forward_masked X P = Raise e.
Proof.
  intros HX HP H0. unfold forward_masked.
  rewrite (forward_gather_unfold X P B B' Pn n rest HX HP).
  destruct (broadcast1 _ _) as [len|e]; cbn [bind]; [|eauto].
  destruct (mapM _ _) as [picked|e]; cbn [bind]; [|eauto].
  exists RuntimeError. now apply reshape_batch_empty.
Qed.

Lemma valid_or_invalid (l : list Z) (size : nat) :
  Forall (fun i => (- Z.of_nat size <= i < Z.of_nat size)%Z) l \/
  Exists (fun i => (i < - Z.of_nat size \/ Z.of_nat size <= i)%Z) l.
Proof.
  induction l as [|i l [IH|IH]].
  - left. constructor.
  - destruct (Z_lt_dec i (- Z.of_nat size)) as [H|H];
      [right; constructor; lia|].
    destruct (Z_le_dec (Z.of_nat size) i) as [H'|H'];
      [right; constructor; lia|].
    left. constructor; [lia | exact IH].
  - right. now apply Exists_cons_tl.
Qed.

(** A materialised first projection refuses any other feature width. *)
Lemma mlp_wrong_width (m : module) (l : linear) (sh : list nat) (k : nat)
    (d : list F) :
  fc1 m = Materialized l -> in_features l <> k ->
  fst (mlp m (Tensor (sh ++ [k]) d)) = Raise RuntimeError.
Proof.
  intros Hfc Hne. unfold mlp, lazy_forward. rewrite Hfc.
  unfold linear_forward, map_last. cbn [shape].
  rewrite rev_app_distr. cbn [rev app].
  destruct (Nat.eqb_spec k (in_features l)); [congruence|]. reflexivity.
Qed.

(** When [forward] returns on matching shapes, the batch and the set of
    predictions are not empty, every position is valid and the module
    accepts the feature width. *)
Lemma forward_returns_inv (m : module) (X : tensor F) (P : tensor Z)
    (B Pn Fd n : nat) (Y : tensor F) (m1 : module) :
  shape X = [B; Pn; Fd] -> wf_tensor X ->
  shape P = [B; n] -> wf_tensor P ->
  forward m X P = (Ok Y, m1) ->
  0 < B /\ 0 < n /\ positions_valid P Pn /\ accepts m Fd.
Proof.
  intros HX WX HP WP E.
  assert (Hpos : B * n <> 0).
  { intro H0.
    destruct (forward_masked_empty X P B B Pn n [Fd] HX HP H0) as [e He].
    unfold forward in E. rewrite He in E. discriminate. }
  assert (HB : 0 < B) by nia.
  assert (Hn : 0 < n) by nia.
  assert (V : positions_valid P Pn).
  { destruct (valid_or_invalid (data P) Pn) as [V|V]; [exact V|].
    unfold forward, forward_masked in E.
    rewrite (forward_gather_invalid X P B Pn n [Fd] HX HP WP V) in E.
    discriminate. }
  repeat split; try assumption.
  unfold accepts. destruct (fc1 m) as [out|l] eqn:Hfc; [exact I|].
  destruct (Nat.eq_dec (in_features l) Fd) as [|Hne]; [assumption|].
  exfalso. unfold forward in E.
  rewrite (forward_masked_ok X P B Pn n [Fd] HX WX HP WP HB Hn V) in E.
  replace (numel_of [Fd]) with Fd in E by (simpl; lia).
  pose proof (mlp_wrong_width m l [B; n] Fd
                (concat (map (pick B Pn Fd (data X))
                             (index_pairs B n (data P)))) Hfc Hne) as R.
  cbn [app] in R. rewrite E in R. discriminate.
Qed.

(** C6. No cross-batch leakage: when two calls on the same module, with
    inputs of the same shapes that agree on batch element [b] (same [X[b]],
    same [P[b]]), both return, they return the same output row [b] and
    leave the module in the same state, whatever the other batch elements
    and their positions hold; more finely, two prediction slots that gather
    the same vector get the same output vector. *)
Theorem no_cross_batch_leakage (m : module) (X X' : tensor F)
    (P P' : tensor Z) (B Pn Fd n b : nat) (Y Y' : tensor F)
    (m1 m1' : module) :
  wf_module m ->
  shape X = [B; Pn; Fd] -> wf_tensor X ->
  shape X' = [B; Pn; Fd] -> wf_tensor X' ->
  shape P = [B; n] -> wf_tensor P ->
  shape P' = [B; n] -> wf_tensor P' ->
  b < B ->
  select1 X (Z.of_nat b) = select1 X' (Z.of_nat b) ->
  select1 P (Z.of_nat b) = select1 P' (Z.of_nat b) ->
  forward m X P = (Ok Y, m1) ->
  forward m X' P' = (Ok Y', m1') ->
  m1 = m1' /\
  (exists row, select1 Y (Z.of_nat b) = Ok row /\
               select1 Y' (Z.of_nat b) = Ok row /\
               length row = n * vocab_size m) /\
  (forall k, k < n ->
     select2 Y (Z.of_nat b) (Z.of_nat k)
       = select2 Y' (Z.of_nat b) (Z.of_nat k)) /\
  (forall b1 k1 b2 k2, b1 < B -> k1 < n -> b2 < B -> k2 < n ->
     select2 X (Z.of_nat b1) (item2 P b1 k1)
       = select2 X' (Z.of_nat b2) (item2 P' b2 k2) ->
     select2 Y (Z.of_nat b1) (Z.of_nat k1)
       = select2 Y' (Z.of_nat b2) (Z.of_nat k2)).
Proof.
  intros Wm HX WX HX' WX' HP WP HP' WP' Hb EX EP E E'.
  destruct (forward_returns_inv m X P B Pn Fd n Y m1 HX WX HP WP E)
    as [_ [Hn [V Hacc]]].
  destruct (forward_returns_inv m X' P' B Pn Fd n Y' m1' HX' WX' HP' WP' E')
    as [_ [_ [V' _]]].
  destruct (no_leakage_when_valid m X X' P P' B Pn Fd n b
              Wm Hacc HX WX HX' WX' HP WP HP' WP' Hn Hb V V' EX EP)
    as [Y0 [Y0' [m0 [R [R' [Hrow [Hk Hslot]]]]]]].
  rewrite E in R. rewrite E' in R'.
  injection R as <- <-. injection R' as <- <-.
  repeat split; assumption.
Qed.

End ForwardTheorems.

(** * The theorems on concrete tensors *)

Section Instances.

Import Torch MaskLM Demo.

#[local] Existing Instance ZNum.

Lemma wf_init (v h : nat) : wf_module (init v h).
Proof.
  unfold wf_module, init. cbn. rewrite !repeat_length. repeat split.
Qed.

(** The gathered tensor for the hidden states of shape [(2, 5, 16)] and the
    positions [[[1, 3], [0, 4]]]. *)
Lemma gathered_vectors_exact_witness :
  exists G,
    forward_masked X_2_5_16 P_2_2 = Ok G /\
    shape G = [2; 2; 16] /\
    wf_tensor G /\
    forall b k, b < 2 -> k < 2 ->
      exists v,
        select2 X_2_5_16 (Z.of_nat b) (item2 P_2_2 b k) = Ok v /\
        select2 G (Z.of_nat b) (Z.of_nat k) = Ok v.
Proof.
  apply (@gathered_vectors_exact Z X_2_5_16 P_2_2 2 5 16 2).
  - reflexivity.
  - reflexivity.
  - reflexivity.
  - reflexivity.
  - lia.
  - lia.
  - unfold positions_valid. simpl. repeat constructor; lia.
Defined.

(** With no prediction requested the reshape to
    [(batch_size, 0, -1)] raises: the gathered tensor does not exist. *)
Lemma gather_without_predictions_raises :
  shape X_1_1_1 = [1; 1; 1] /\ wf_tensor X_1_1_1 /\
  shape P_1_0 = [1; 0] /\ wf_tensor P_1_0 /\
  positions_valid P_1_0 1 /\
  forward_masked X_1_1_1 P_1_0 = Raise RuntimeError.
Proof.
  repeat split. constructor.
Qed.

(** The head on the hidden states of shape [(2, 5, 16)] and the positions
    [[[1, 3], [0, 4]]], for a fresh module with 7 vocabulary entries and 4
    hidden units: the output has shape [(2, 2, 7)]. *)
Lemma forward_shape_and_transform_witness :
  exists Y l1 l2,
    forward (init 7 4) X_2_5_16 P_2_2
      = (Ok Y, Module_ (Materialized l1) (norm (init 7 4)) (Materialized l2)) /\
    shape Y = [2; 2; 7] /\
    wf_tensor Y /\
    in_features l1 = 16 /\ out_features l1 = 4 /\
    in_features l2 = 4 /\ out_features l2 = 7 /\
    forall b k, b < 2 -> k < 2 ->
      exists x,
        select2 X_2_5_16 (Z.of_nat b) (item2 P_2_2 b k) = Ok x /\
        length (linear_vec l1 x) = 4 /\
        length (layer_norm_vec (norm (init 7 4)) (relu_vec (linear_vec l1 x)))
          = 4 /\
        select2 Y (Z.of_nat b) (Z.of_nat k)
          = Ok (linear_vec l2
                  (layer_norm_vec (norm (init 7 4))
                     (relu_vec (linear_vec l1 x)))) /\
        length (linear_vec l2
                  (layer_norm_vec (norm (init 7 4))
                     (relu_vec (linear_vec l1 x))))
          = 7.
Proof.
  apply (@forward_shape_and_transform Z ZNum (init 7 4)
           X_2_5_16 P_2_2 2 5 16 2).
  - apply wf_init.
  - exact I.
  - reflexivity.
  - reflexivity.
  - reflexivity.
  - reflexivity.
  - lia.
  - lia.
  - unfold positions_valid. simpl. repeat constructor; lia.
Defined.

(** With no prediction requested [forward] raises and returns nothing. *)
Lemma forward_without_predictions_raises :
  wf_module (init 3 2) /\
  accepts (init 3 2) 1 /\
  shape X_1_1_1 = [1; 1; 1] /\ wf_tensor X_1_1_1 /\
  shape P_1_0 = [1; 0] /\ wf_tensor P_1_0 /\
  positions_valid P_1_0 1 /\
  forward (init 3 2) X_1_1_1 P_1_0
    = (Raise RuntimeError, init 3 2).
Proof.
  split; [apply wf_init|]. repeat split. constructor.
Qed.

(** Two inputs that agree on batch element 0 only: both calls return, with
    the same output row 0. *)
Lemma no_cross_batch_leakage_witness :
  exists Y Y' m1 m1',
    forward (init 7 4) X_2_5_16 P_2_2 = (Ok Y, m1) /\
    forward (init 7 4) X_other P_other = (Ok Y', m1') /\
    m1 = m1' /\
    (exists row, select1 Y 0%Z = Ok row /\
                 select1 Y' 0%Z = Ok row /\
                 length row = 2 * vocab_size (init 7 4)) /\
    (forall k, k < 2 ->
       select2 Y 0%Z (Z.of_nat k) = select2 Y' 0%Z (Z.of_nat k)) /\
    (forall b1 k1 b2 k2, b1 < 2 -> k1 < 2 -> b2 < 2 -> k2 < 2 ->
       select2 X_2_5_16 (Z.of_nat b1) (item2 P_2_2 b1 k1)
         = select2 X_other (Z.of_nat b2) (item2 P_other b2 k2) ->
       select2 Y (Z.of_nat b1) (Z.of_nat k1)
         = select2 Y' (Z.of_nat b2) (Z.of_nat k2)).
Proof.
  destruct (forward (init 7 4) X_2_5_16 P_2_2) as [[Y|e] m1] eqn:E;
    [|vm_compute in E; discriminate].
  destruct (forward (init 7 4) X_other P_other) as [[Y'|e] m1'] eqn:E';
    [|vm_compute in E'; discriminate].
  exists Y, Y', m1, m1'.
  split; [reflexivity|]. split; [reflexivity|].
  apply (@no_cross_batch_leakage Z ZNum (init 7 4)
           X_2_5_16 X_other P_2_2 P_other 2 5 16 2 0 Y Y' m1 m1').
  - apply wf_init.
  - reflexivity.
  - reflexivity.
  - reflexivity.
  - reflexivity.
  - reflexivity.
  - reflexivity.
  - reflexivity.
  - reflexivity.
  - lia.
  - reflexivity.
  - reflexivity.
  - exact E.
  - exact E'.
Defined.

(** Matching batch dimensions succeed; three position rows against two
    batch elements raise. *)
Lemma batch_dimensions_must_agree_witness :
  (reshape P_2_2 [(-1)%Z] = Ok (Tensor [2 * 2] (data P_2_2)) /\
   length (data P_2_2) = 2 * 2 /\
   length (data (repeat_interleave (arange 0 (Z.of_nat 2)) 2)) = 2 * 2 /\
   exists G, forward_masked X_2_5_16 P_2_2 = Ok G /\ shape G = [2; 2; 16]) /\
  (exists e, forward_masked X_2_5_16 P_3_2 = Raise e).
Proof.
  split.
  - apply (@batch_dimensions_must_agree Z X_2_5_16 P_2_2 2 2 5 16 2);
      try reflexivity; try lia.
    unfold positions_valid. simpl. repeat constructor; lia.
  - apply (@batch_dimensions_must_agree Z X_2_5_16 P_3_2 2 3 5 16 2);
      try reflexivity; lia.
Defined.

(** A single position row against two batch elements does not raise: the
    one position is broadcast to both batch elements. *)
Lemma broadcast_hides_batch_mismatch :
  shape X_2_1_1 = [2; 1; 1] /\ wf_tensor X_2_1_1 /\
  shape P_1_1 = [1; 1] /\ wf_tensor P_1_1 /\
  nth 0 (shape P_1_1) 0 <> nth 0 (shape X_2_1_1) 0 /\
  forward_masked X_2_1_1 P_1_1 = Ok (Tensor [2; 1; 1] [5; 6]%Z) /\
  exists Y m', forward (init 3 2) X_2_1_1 P_1_1 = (Ok Y, m').
Proof.
  repeat split.
  - simpl. lia.
  - do 2 eexists. vm_compute. reflexivity.
Qed.

(** Valid positions, one of them negative, are gathered; a position equal
    to the number of positions raises. *)
Lemma negative_positions_count_from_end_witness :
  (exists G,
     forward_gather X_2_5_16 P_negative = Ok (2, 2, G) /\
     shape G = [2 * 2; 16] /\
     forall b k, b < 2 -> k < 2 ->
       let i := item2 P_negative b k in
       exists v,
         select2 X_2_5_16 (Z.of_nat b)
                 (if (i <? 0)%Z then Z.of_nat 5 + i else i)%Z = Ok v /\
         select1 G (Z.of_nat (b * 2 + k)) = Ok v) /\
  forward_gather X_2_5_16 P_too_large = Raise IndexError.
Proof.
  split.
  - apply (@negative_positions_count_from_end Z X_2_5_16 P_negative 2 5 16 2);
      try reflexivity.
    unfold positions_valid. simpl. repeat constructor; lia.
  - apply (@negative_positions_count_from_end Z X_2_5_16 P_too_large 2 5 16 2);
      try reflexivity.
    unfold P_too_large. simpl.
    apply Exists_cons_tl, Exists_cons_hd. lia.
Defined.

End Instances.

(** * More on the sequence formatter *)

Section FormatterMore.

Import Formatter.

Local Abbreviation CLS := "<cls>"%string.
Local Abbreviation SEP := "<sep>"%string.

Lemma app_inj_length {T : Type} (l1 l1' l2 l2' : list T) :
  length l1 = length l1' -> l1 ++ l2 = l1' ++ l2' -> l1 = l1' /\ l2 = l2'.
Proof.
  revert l1'. induction l1 as [|x l1 IH]; intros [|x' l1'] L E;
    simpl in L; try discriminate.
  - now split.
  - simpl in E. injection E as -> E.
    destruct (IH l1' ltac:(lia) E) as [-> ->]. now split.
Qed.

Lemma zeros_ones_inj (n m n' m' : nat) :
  repeat 0%Z n ++ repeat 1%Z m = repeat 0%Z n' ++ repeat 1%Z m' ->
  n = n' /\ m = m'.
Proof.
  intro E.
  pose proof (f_equal (fun l => count_occ Z.eq_dec l 0%Z) E) as E0.
  pose proof (f_equal (fun l => count_occ Z.eq_dec l 1%Z) E) as E1.
  cbv beta in E0, E1. rewrite !count_occ_app in E0, E1.
  rewrite !(count_occ_repeat_eq Z.eq_dec (x := 0%Z) (y := 0%Z)) in E0
    by reflexivity.
  rewrite !(count_occ_repeat_neq Z.eq_dec (x := 0%Z) (y := 1%Z)) in E0
    by discriminate.
  rewrite !(count_occ_repeat_eq Z.eq_dec (x := 1%Z) (y := 1%Z)) in E1
    by reflexivity.
  rewrite !(count_occ_repeat_neq Z.eq_dec (x := 1%Z) (y := 0%Z)) in E1
    by discriminate.
  lia.
Qed.

(** X1. The formatter loses nothing: the pair (tokens, segment ids) it
    returns determines both arguments, including whether the second one was
    [None] or a list. *)
Theorem format_injective (A A' : list string) (B B' : option (list string)) :
  get_tokens_and_segments A B = get_tokens_and_segments A' B' ->
  A = A' /\ B = B'.
Proof.
  unfold get_tokens_and_segments.
  destruct B as [b|], B' as [b'|]; intro E; injection E as ET ES.
  - apply zeros_ones_inj in ES. destruct ES as [La Lb].
    rewrite <- !app_assoc in ET. simpl in ET.
    apply app_inj_length in ET; [|lia]. destruct ET as [-> ET].
    injection ET as ET. apply app_inj_tail in ET. destruct ET as [-> _].
    now split.
  - exfalso.
    rewrite <- (app_nil_r (repeat 0%Z (length A' + 2))) in ES.
    change (@nil Z) with (repeat 1%Z 0) in ES.
    apply zeros_ones_inj in ES. lia.
  - exfalso.
    rewrite <- (app_nil_r (repeat 0%Z (length A + 2))) in ES.
    change (@nil Z) with (repeat 1%Z 0) in ES.
    apply zeros_ones_inj in ES. lia.
  - apply app_inj_tail in ET. destruct ET as [-> _]. now split.
Qed.

(** X2. The token list alone does not determine the arguments: markers in
    the input are passed through unchanged, so formatting the pair [(A, B)]
    and formatting the single list [A + ['<sep>'] + B] give the same tokens;
    only the segment ids tell the two apart. *)
Theorem tokens_alone_ambiguous (A B : list string) :
  fst (get_tokens_and_segments A (Some B))
    = fst (get_tokens_and_segments (A ++ [SEP] ++ B) None) /\
  snd (get_tokens_and_segments A (Some B))
    <> snd (get_tokens_and_segments (A ++ [SEP] ++ B) None).
Proof.
  unfold get_tokens_and_segments; cbn [fst snd]. split.
  - now rewrite <- !app_assoc.
  - intro E.
    rewrite <- (app_nil_r (repeat 0%Z (length (A ++ [SEP] ++ B) + 2))) in E.
    change (@nil Z) with (repeat 1%Z 0) in E.
    apply zeros_ones_inj in E. lia.
Qed.

(** X3. Formatting a pair is formatting each sentence on its own and
    gluing: the tokens of [(A, B)] are those of [A] followed by those of [B]
    without its CLS marker, and the segment ids are those of [A] followed by
    those of [B], without the first and raised by one. *)
Theorem pair_format_from_single_formats (A B : list string) :
  fst (get_tokens_and_segments A (Some B))
    = fst (get_tokens_and_segments A None)
        ++ tl (fst (get_tokens_and_segments B None)) /\
  snd (get_tokens_and_segments A (Some B))
    = snd (get_tokens_and_segments A None)
        ++ map (Z.add 1) (tl (snd (get_tokens_and_segments B None))).
Proof.
  unfold get_tokens_and_segments; cbn [fst snd]. split.
  - reflexivity.
  - f_equal. replace (length B + 2) with (S (length B + 1)) by lia.
    cbn [repeat tl]. now rewrite map_repeat.
Qed.

(** X4. The formatter adds exactly one CLS marker, and one SEP marker per
    sentence it is given; markers already present in the input are counted
    on top. *)
Theorem marker_counts (A : list string) (B : option (list string)) :
  let tokens := fst (get_tokens_and_segments A B) in
  let extra (t : string) :=
    match B with
    | Some b => count_occ string_dec b t
    | None => 0
    end in
  count_occ string_dec tokens CLS
    = 1 + count_occ string_dec A CLS + extra CLS /\
  count_occ string_dec tokens SEP
    = (match B with Some _ => 2 | None => 1 end)
      + count_occ string_dec A SEP + extra SEP.
Proof.
  cbv zeta. unfold get_tokens_and_segments.
  destruct B as [b|]; cbn [fst]; rewrite !count_occ_app; simpl; lia.
Qed.

Lemma filter_combine_repeat {T : Type} (f : T * Z -> bool) (c : Z)
    (l : list T) (keep : bool) :
  (forall x, f (x, c) = keep) ->
  map fst (filter f (combine l (repeat c (length l))))
    = if keep then l else [].
Proof.
  intro H. induction l as [|x l IH]; simpl.
  - now destruct keep.
  - rewrite H. destruct keep; simpl; now rewrite IH.
Qed.

Lemma combine_app_length {T U : Type} (l1 l2 : list T) (r1 r2 : list U) :
  length l1 = length r1 ->
  combine (l1 ++ l2) (r1 ++ r2) = combine l1 r1 ++ combine l2 r2.
Proof.
  revert r1. induction l1 as [|x l1 IH]; intros [|y r1] L;
    simpl in L; try discriminate; simpl; [reflexivity|].
  f_equal. apply IH. lia.
Qed.

(** X5. Reading the output back by segment id recovers the two sentences:
    the tokens labelled 0 are [['<cls>'] + A + ['<sep>']], the tokens
    labelled 1 are [B + ['<sep>']] when a second sentence was given and
    there are none otherwise. *)
Theorem split_by_segment_id (A : list string) (B : option (list string)) :
  let (tokens, segments) := get_tokens_and_segments A B in
  map fst (filter (fun ts => (snd ts =? 0)%Z) (combine tokens segments))
    = [CLS] ++ A ++ [SEP] /\
  map fst (filter (fun ts => (snd ts =? 1)%Z) (combine tokens segments))
    = match B with
      | Some b => b ++ [SEP]
      | None => []
      end.
Proof.
  unfold get_tokens_and_segments.
  assert (L : length ([CLS] ++ A ++ [SEP]) = length A + 2).
  { simpl. rewrite length_app. simpl. lia. }
  destruct B as [b|].
  - assert (Lb : length (b ++ [SEP]) = length b + 1).
    { rewrite length_app. simpl. lia. }
    rewrite combine_app_length by (rewrite repeat_length; exact L).
    rewrite !filter_app, !map_app. rewrite <- L, <- Lb.
    rewrite (filter_combine_repeat (fun ts => (snd ts =? 0)%Z) 0%Z _ true)
      by reflexivity.
    rewrite (filter_combine_repeat (fun ts => (snd ts =? 0)%Z) 1%Z _ false)
      by reflexivity.
    rewrite (filter_combine_repeat (fun ts => (snd ts =? 1)%Z) 0%Z _ false)
      by reflexivity.
    rewrite (filter_combine_repeat (fun ts => (snd ts =? 1)%Z) 1%Z _ true)
      by reflexivity.
    rewrite app_nil_r. now split.
  - rewrite <- L.
    rewrite (filter_combine_repeat (fun ts => (snd ts =? 0)%Z) 0%Z _ true)
      by reflexivity.
    rewrite (filter_combine_repeat (fun ts => (snd ts =? 1)%Z) 0%Z _ false)
      by reflexivity.
    now split.
Qed.

(** Two calls with equal results, at a concrete pair of sentences. *)
Lemma format_injective_witness :
  ["the"; "cat"]%string = ["the"; "cat"]%string /\
  Some ["sat"]%string = Some ["sat"]%string.
Proof.
  apply (format_injective ["the"; "cat"]%string ["the"; "cat"]%string
           (Some ["sat"]%string) (Some ["sat"]%string)).
  reflexivity.
Defined.

End FormatterMore.

(** * More on [MaskLM.forward]: exceptions and the module state *)

Section ForwardMore.

Import Torch MaskLM.

Context {F : Type} {num : Numerics F}.

(** X6. [forward] needs two axes on both arguments: when the hidden states
    or the prediction positions have fewer, it raises [IndexError] and the
    module is left as it was. *)
Theorem too_few_axes_raise (m : module) (X : tensor F) (P : tensor Z) :
  length (shape X) < 2 \/ length (shape P) < 2 ->
  forward m X P = (Raise IndexError, m).
Proof.
  intro H. unfold forward, forward_masked, forward_gather, shape_at.
  destruct (shape P) as [|a [|n r]] eqn:HP; cbn [nth_error bind];
    try reflexivity.
  destruct H as [H|H]; [|simpl in H; lia].
  rewrite reshape_flat. cbn [bind].
  destruct (shape X) as [|d [|d1 r1]] eqn:HX; cbn [nth_error bind].
  - reflexivity.
  - unfold index2. rewrite HX. reflexivity.
  - simpl in H. lia.
Qed.

(** X7. A position outside [-P, P) makes [forward] raise [IndexError]
    before the MLP is reached: the module state, lazy layers included, is
    unchanged. *)
Theorem invalid_position_leaves_module (m : module) (X : tensor F)
    (P : tensor Z) (B Pn n : nat) (rest : list nat) :
  shape X = B :: Pn :: rest -> shape P = [B; n] -> wf_tensor P ->
  Exists (fun i => (i < - Z.of_nat Pn \/ Z.of_nat Pn <= i)%Z) (data P) ->
  forward m X P = (Raise IndexError, m).
Proof.
  intros HX HP WP V. unfold forward, forward_masked.
  now rewrite (forward_gather_invalid X P B Pn n rest HX HP WP V).
Qed.

(** X8. Hidden states may have any number of trailing axes: they are
    flattened into the feature axis.  For [X] of shape
    [(batch, positions, d2, ..., dk)] the tensor handed to the MLP has shape
    [(batch, num_predictions, d2 * ... * dk)] and its entry [(b, k)] holds
    the elements of [X[b, P[b][k]]] in storage order. *)
Theorem trailing_axes_flattened (X : tensor F) (P : tensor Z)
    (B Pn n : nat) (rest : list nat) :
  shape X = B :: Pn :: rest -> wf_tensor X ->
  shape P = [B; n] -> wf_tensor P ->
  0 < B -> 0 < n -> positions_valid P Pn ->
  exists G,
    forward_masked X P = Ok G /\
    shape G = [B; n; numel_of rest] /\
    forall b k, b < B -> k < n ->
      exists v,
        select2 X (Z.of_nat b) (item2 P b k) = Ok v /\
        length v = numel_of rest /\
        select2 G (Z.of_nat b) (Z.of_nat k) = Ok v.
Proof.
  intros HX WX HP WP HB Hn V.
  pose proof (forward_masked_ok X P B Pn n rest HX WX HP WP HB Hn V) as E.
  pose proof (picked_uniform X P B Pn n rest HX WX V) as U.
  assert (LP : length (data P) = B * n).
  { unfold wf_tensor, numel in WP. now rewrite HP, numel_pair in WP. }
  eexists. split; [exact E|]. split; [reflexivity|].
  intros b k Hb Hk.
  pose proof (item2_valid P B n b k Pn HP WP V Hb Hk) as Hi.
  exists (pick B Pn (numel_of rest) (data X) (Z.of_nat b, item2 P b k)).
  split; [|split].
  - apply (select2_pick X B Pn b rest _ HX Hb Hi).
  - apply (pick_length X B Pn b rest _ HX WX Hb Hi).
  - rewrite select2_concat; auto.
    2:{ rewrite length_map. now apply length_index_pairs. }
    f_equal.
    rewrite (nth_indep _ [] (pick B Pn (numel_of rest) (data X) (0%Z, 0%Z)))
      by (rewrite length_map, length_index_pairs by assumption; nia).
    rewrite map_nth, nth_index_pairs by assumption.
    unfold item2. rewrite HP. reflexivity.
Qed.

(** X9. A position tensor of shape [(1, 1)] is broadcast over the batch:
    [forward] treats it exactly like the [(batch, 1)] tensor that repeats
    the one position for every batch element, for any batch of at least one
    element. *)
Theorem single_position_is_broadcast (m : module) (X : tensor F) (p : Z)
    (B Pn : nat) (rest : list nat) :
  shape X = B :: Pn :: rest -> 0 < B ->
  forward m X (Tensor [1; 1] [p])
    = forward m X (Tensor [B; 1] (repeat p B)).
Proof.
  intros HX _. unfold forward, forward_masked.
  rewrite (forward_gather_unfold X (Tensor [1; 1] [p]) B 1 Pn 1 rest HX eq_refl).
  rewrite (forward_gather_unfold X (Tensor [B; 1] (repeat p B)) B B Pn 1 rest
             HX eq_refl).
  cbn [data]. rewrite !Nat.mul_1_r.
  assert (Eb : broadcast1 B 1 = Ok B).
  { unfold broadcast1. destruct (Nat.eqb_spec B 1) as [->|_]; reflexivity. }
  assert (Eb' : broadcast1 B B = Ok B).
  { unfold broadcast1. now rewrite Nat.eqb_refl. }
  rewrite Eb, Eb'. cbn [bind].
  assert (Ex : expand1 [p] B = repeat p B).
  { unfold expand1. cbn [length].
    destruct (Nat.eqb_spec 1 B) as [<-|_]; reflexivity. }
  assert (Ex' : expand1 (repeat p B) B = repeat p B).
  { unfold expand1. now rewrite repeat_length, Nat.eqb_refl. }
  rewrite Ex, Ex'. reflexivity.
Qed.

(** X10. With a single batch element the position rows are broadcast the
    other way: for [X] of shape [(1, positions, features)] and valid
    positions of shape [(B', 1)], nothing raises and the tensor handed to
    the MLP has shape [(1, 1, B' * features)]: the [B'] gathered vectors
    [X[0, P[j][0]]] laid end to end as one feature vector. *)
Theorem single_batch_concatenates_rows (X : tensor F) (P : tensor Z)
    (B' Pn Fd : nat) :
  shape X = [1; Pn; Fd] -> wf_tensor X ->
  shape P = [B'; 1] -> wf_tensor P ->
  positions_valid P Pn ->
  exists vs,
    mapM (fun p => select2 X 0%Z p) (data P) = Ok vs /\
    forward_masked X P = Ok (Tensor [1; 1; B' * Fd] (concat vs)).
Proof.
  intros HX WX HP WP V.
  assert (LP : length (data P) = B').
  { unfold wf_tensor, numel in WP. rewrite HP, numel_pair in WP. lia. }
  exists (map (fun p => pick 1 Pn Fd (data X) (0%Z, p)) (data P)).
  assert (Hsel : forall p, In p (data P) ->
                   select2 X 0%Z p = Ok (pick 1 Pn Fd (data X) (0%Z, p))).
  { intros p Hp. unfold positions_valid in V. rewrite Forall_forall in V.
    pose proof (select2_pick X 1 Pn 0 [Fd] p HX ltac:(lia) (V p Hp)) as S.
    replace (numel_of [Fd]) with Fd in S by (simpl; lia). exact S. }
  split; [now apply mapM_ok|].
  unfold forward_masked.
  rewrite (forward_gather_unfold X P 1 B' Pn 1 [Fd] HX HP).
  rewrite !Nat.mul_1_r. cbn [seq map flat_map repeat app].
  assert (Eb : broadcast1 1 B' = Ok B').
  { unfold broadcast1. destruct (Nat.eqb_spec 1 B') as [<-|_]; reflexivity. }
  rewrite Eb. cbn [bind].
  assert (Ex : expand1 [0%Z] B' = repeat 0%Z B').
  { unfold expand1. cbn [length].
    destruct (Nat.eqb_spec 1 B') as [<-|_]; reflexivity. }
  assert (Ex' : expand1 (data P) B' = data P).
  { unfold expand1. now rewrite LP, Nat.eqb_refl. }
  change (Z.of_nat 0) with 0%Z. rewrite Ex, Ex'.
  rewrite (mapM_ok _ (pick 1 Pn (numel_of [Fd]) (data X))).
  2:{ intros [b p] Hin. pose proof (in_combine_l _ _ _ _ Hin) as Hb.
      apply repeat_spec in Hb. subst b.
      apply in_combine_r in Hin.
      unfold positions_valid in V. rewrite Forall_forall in V.
      destruct (wrap_index_valid p Pn (V p Hin)) as [-> _].
      pose proof (wrap_index_nat 0 1 ltac:(lia)) as W0.
      cbn [Z.of_nat] in W0. rewrite W0. reflexivity. }
  cbn [bind]. replace (numel_of [Fd]) with Fd by (simpl; lia).
  assert (Epairs : map (pick 1 Pn Fd (data X))
                       (combine (repeat 0%Z B') (data P))
                   = map (fun p => pick 1 Pn Fd (data X) (0%Z, p)) (data P)).
  { rewrite <- LP. clear. induction (data P) as [|q l IH]; simpl;
      [reflexivity | now rewrite IH]. }
  rewrite Epairs.
  assert (U : Forall (fun r => length r = Fd)
                (map (fun p => pick 1 Pn Fd (data X) (0%Z, p)) (data P))).
  { apply Forall_map_length. intros p Hp.
    unfold positions_valid in V. rewrite Forall_forall in V.
    pose proof (pick_length X 1 Pn 0 [Fd] p HX WX ltac:(lia) (V p Hp)) as L.
    replace (numel_of [Fd]) with Fd in L by (simpl; lia). exact L. }
  unfold reshape. change (Z.of_nat 1) with 1%Z.
  change [1%Z; 1%Z; (-1)%Z] with [Z.of_nat 1; Z.of_nat 1; (-1)%Z].
  rewrite infer_size_batch. unfold numel. cbn [shape data numel_of fold_right].
  rewrite Nat.mod_1_r, Nat.div_1_r, Nat.mul_1_r. cbn [Nat.eqb Nat.ltb Nat.leb].
  rewrite orb_true_r. cbn [Nat.mul Nat.add Nat.eqb bind]. reflexivity.
Qed.

End ForwardMore.

(** * The module state across calls *)

Section ModuleState.

Import Torch MaskLM.

Context {F : Type} {num : Numerics F}.

Lemma lazy_forward_state (layer : nat) (st : lazy_linear) (t : tensor F) :
  out_width (snd (lazy_forward layer st t)) = out_width st /\
  forall l, st = Materialized l ->
            snd (lazy_forward layer st t) = Materialized l.
Proof.
  unfold lazy_forward. destruct st as [out|l0].
  - destruct (rev (shape t)); cbn; split; auto; discriminate.
  - cbn. split; auto.
Qed.

Lemma mlp_state (m : module) (t : tensor F) :
  fc1 (snd (mlp m t)) = snd (lazy_forward 0 (fc1 m) t) /\
  norm (snd (mlp m t)) = norm m /\
  (fc2 (snd (mlp m t)) = fc2 m \/
   exists h, fc2 (snd (mlp m t)) = snd (lazy_forward 3 (fc2 m) h)).
Proof.
  unfold mlp.
  destruct (lazy_forward 0 (fc1 m) t) as [[h1|e] fc1']; cbn [snd fst];
    [|cbn; auto].
  destruct (layer_norm_forward (norm m) (relu h1)) as [h3|e]; [|cbn; auto].
  destruct (lazy_forward 3 (fc2 m) h3) as [r4 fc2'] eqn:E4. cbn.
  repeat split. right. exists h3. now rewrite E4.
Qed.

Lemma forward_state (m : module) (X : tensor F) (P : tensor Z) :
  snd (forward m X P) = m \/
  exists t, snd (forward m X P) = snd (mlp m t).
Proof.
  unfold forward. destruct (forward_masked X P) as [t|e]; [|now left].
  right. now exists t.
Qed.

(** X11. Whether it returns or raises, [forward] never changes the
    normalisation parameters, the output widths of the two projections, or
    the parameters of a projection that is already materialised. *)
Theorem forward_keeps_configuration (m : module) (X : tensor F)
    (P : tensor Z) :
  let m' := snd (forward m X P) in
  norm m' = norm m /\
  num_hiddens m' = num_hiddens m /\
  vocab_size m' = vocab_size m /\
  (forall l, fc1 m = Materialized l -> fc1 m' = Materialized l) /\
  (forall l, fc2 m = Materialized l -> fc2 m' = Materialized l).
Proof.
  cbv zeta. destruct (forward_state m X P) as [->|[t ->]].
  { repeat split; auto. }
  destruct (mlp_state m t) as [E1 [En E2]].
  destruct (lazy_forward_state 0 (fc1 m) t) as [W1 K1].
  unfold num_hiddens, vocab_size. rewrite E1, En.
  repeat split; auto.
  - destruct E2 as [->|[h ->]]; [reflexivity|].
    apply (lazy_forward_state 3 (fc2 m) h).
  - intros l Hl. destruct E2 as [->|[h ->]]; [exact Hl|].
    now apply (lazy_forward_state 3 (fc2 m) h).
Qed.

Lemma forward_state_frozen (m : module) (l1 l2 : linear) (X : tensor F)
    (P : tensor Z) :
  fc1 m = Materialized l1 -> fc2 m = Materialized l2 ->
  snd (forward m X P) = m.
Proof.
  intros H1 H2. destruct (forward_state m X P) as [E|[t E]]; [exact E|].
  rewrite E. destruct (mlp_state m t) as [E1 [En E2]].
  destruct (lazy_forward_state 0 (fc1 m) t) as [_ K1].
  rewrite (K1 l1 H1) in E1.
  assert (E2' : fc2 (snd (mlp m t)) = Materialized l2).
  { destruct E2 as [->|[h ->]]; [exact H2|].
    now apply (lazy_forward_state 3 (fc2 m) h). }
  destruct (snd (mlp m t)) as [a b c], m as [a0 b0 c0]. cbn in *.
  congruence.
Qed.

Lemma forward_ok_state (m : module) (X : tensor F) (P : tensor Z)
    (B Pn Fd n : nat) (Y : tensor F) (m1 : module) :
  wf_module m ->
  shape X = [B; Pn; Fd] -> wf_tensor X ->
  shape P = [B; n] -> wf_tensor P ->
  forward m X P = (Ok Y, m1) ->
  m1 = Module_ (Materialized (realize 0 (fc1 m) Fd)) (norm m)
               (Materialized (realize 3 (fc2 m) (num_hiddens m))) /\
  shape Y = [B; n; vocab_size m].
Proof.
  intros Wm HX WX HP WP E.
  destruct (forward_returns_inv m X P B Pn Fd n Y m1 HX WX HP WP E)
    as [HB [Hn [V Hacc]]].
  rewrite (forward_ok m X P B Pn Fd n Wm Hacc HX WX HP WP HB Hn V) in E.
  injection E as <- <-. now split.
Qed.

(** X12. A call that returns leaves a well-formed module with both
    projections materialised, the first one at the feature width of the
    hidden states it was called with and at no other; from then on no call,
    returning or raising, changes the module. *)
Theorem returning_call_fixes_module (m : module) (X : tensor F)
    (P : tensor Z) (B Pn Fd n : nat) (Y : tensor F) (m1 : module) :
  wf_module m ->
  shape X = [B; Pn; Fd] -> wf_tensor X ->
  shape P = [B; n] -> wf_tensor P ->
  forward m X P = (Ok Y, m1) ->
  wf_module m1 /\
  (exists l1 l2,
     fc1 m1 = Materialized l1 /\ fc2 m1 = Materialized l2 /\
     in_features l1 = Fd /\ out_features l1 = num_hiddens m /\
     in_features l2 = num_hiddens m /\ out_features l2 = vocab_size m) /\
  (forall w, accepts m1 w <-> w = Fd) /\
  (forall X' P', snd (forward m1 X' P') = m1).
Proof.
  intros Wm HX WX HP WP E.
  destruct (forward_returns_inv m X P B Pn Fd n Y m1 HX WX HP WP E)
    as [_ [_ [_ Hacc]]].
  destruct (forward_ok_state m X P B Pn Fd n Y m1 Wm HX WX HP WP E)
    as [-> _].
  pose proof (in_features_fc1 m Fd Hacc) as I1.
  pose proof (in_features_fc2 m Wm) as I2.
  pose proof (out_features_realize 0 (fc1 m) Fd) as O1.
  pose proof (out_features_realize 3 (fc2 m) (num_hiddens m)) as O2.
  destruct Wm as [W1 [W2 [Hn [Hg [Hb _]]]]].
  split; [|split; [|split]].
  - unfold wf_module, num_hiddens. cbn [fc1 fc2 norm out_width wf_lazy].
    rewrite O1. fold (num_hiddens m).
    repeat split; auto; now apply wf_realize.
  - do 2 eexists. cbn [fc1 fc2]. repeat split; assumption.
  - intro w. unfold accepts. cbn [fc1]. rewrite I1. split; congruence.
  - intros X' P'.
    apply (forward_state_frozen _ (realize 0 (fc1 m) Fd)
             (realize 3 (fc2 m) (num_hiddens m))); reflexivity.
Qed.

(** X13. The first call that returns fixes the feature width: a later call
    with hidden states of another width, however valid its positions,
    raises [RuntimeError] in the first projection and leaves the module as
    it was. *)
Theorem other_width_raises (m : module) (X X' : tensor F) (P P' : tensor Z)
    (B Pn Fd n B' Pn' Fd' n' : nat) (Y : tensor F) (m1 : module) :
  wf_module m ->
  shape X = [B; Pn; Fd] -> wf_tensor X ->
  shape P = [B; n] -> wf_tensor P ->
  forward m X P = (Ok Y, m1) ->
  shape X' = [B'; Pn'; Fd'] -> wf_tensor X' ->
  shape P' = [B'; n'] -> wf_tensor P' ->
  0 < B' -> 0 < n' -> positions_valid P' Pn' ->
  Fd' <> Fd ->
  forward m1 X' P' = (Raise RuntimeError, m1).
Proof.
  intros Wm HX WX HP WP E HX' WX' HP' WP' HB' Hn' V' Hne.
  destruct (forward_returns_inv m X P B Pn Fd n Y m1 HX WX HP WP E)
    as [_ [_ [_ Hacc]]].
  destruct (forward_ok_state m X P B Pn Fd n Y m1 Wm HX WX HP WP E)
    as [Em1 _].
  pose proof (in_features_fc1 m Fd Hacc) as I1.
  set (l1 := realize 0 (fc1 m) Fd) in *.
  set (l2 := realize 3 (fc2 m) (num_hiddens m)) in *.
  assert (H1 : fc1 m1 = Materialized l1) by (now rewrite Em1).
  assert (H2 : fc2 m1 = Materialized l2) by (now rewrite Em1).
  pose proof (forward_state_frozen m1 l1 l2 X' P' H1 H2) as Es.
  destruct (forward m1 X' P') as [r s] eqn:E2. cbn [snd] in Es. subst s.
  f_equal.
  unfold forward in E2.
  rewrite (forward_masked_ok X' P' B' Pn' n' [Fd'] HX' WX' HP' WP' HB' Hn' V')
    in E2.
  pose proof (mlp_wrong_width m1 l1 [B'; n'] (numel_of [Fd'])
                (concat (map (pick B' Pn' (numel_of [Fd']) (data X'))
                             (index_pairs B' n' (data P')))) H1) as R.
  cbn [app] in R. rewrite E2 in R. cbn [fst] in R. apply R.
  simpl. lia.
Qed.

(** X14. A freshly constructed head takes hidden states of any feature
    width: the first call returns scores of shape
    [(batch, num_predictions, vocab_size)] and materialises the first
    projection as [features -> num_hiddens] and the second as
    [num_hiddens -> vocab_size], with freshly initialised parameters. *)
Theorem fresh_head_takes_any_width (vocab hidden : nat) (X : tensor F)
    (P : tensor Z) (B Pn Fd n : nat) :
  shape X = [B; Pn; Fd] -> wf_tensor X ->
  shape P = [B; n] -> wf_tensor P ->
  0 < B -> 0 < n -> positions_valid P Pn ->
  exists Y,
    forward (init vocab hidden) X P
      = (Ok Y, Module_ (Materialized (materialize 0 hidden Fd))
                       (norm (init vocab hidden))
                       (Materialized (materialize 3 vocab hidden))) /\
    shape Y = [B; n; vocab] /\ wf_tensor Y.
Proof.
  intros HX WX HP WP HB Hn V.
  assert (Wm : wf_module (init vocab hidden)).
  { unfold wf_module, init. cbn. rewrite !repeat_length. repeat split. }
  pose proof (forward_ok (init vocab hidden) X P B Pn Fd n Wm I
                HX WX HP WP HB Hn V) as E.
  eexists. split; [exact E|]. split; [reflexivity|].
  assert (LP : length (data P) = B * n).
  { unfold wf_tensor, numel in WP. now rewrite HP, numel_pair in WP. }
  unfold wf_tensor, numel. cbn [shape data].
  rewrite (length_concat_uniform (vocab_size (init vocab hidden))).
  - rewrite length_map, length_index_pairs by assumption.
    cbn. lia.
  - apply Forall_map_length. intros r _. now apply mlp_vec_length.
Qed.

End ModuleState.

(** * Equivalent inputs and stacked batches *)

Section BatchStructure.

Import Torch MaskLM.

Context {F : Type} {num : Numerics F}.

Lemma combine_map_r {T U V : Type} (f : U -> V) (l : list T) (r : list U) :
  combine l (map f r) = map (fun p => (fst p, f (snd p))) (combine l r).
Proof.
  revert r. induction l as [|x l IH]; intros [|y r]; simpl; try reflexivity.
  now rewrite IH.
Qed.

Lemma wrapped_normalised (i : Z) (size : nat) :
  (- Z.of_nat size <= i < Z.of_nat size)%Z ->
  wrapped (if (i <? 0)%Z then i + Z.of_nat size else i)%Z size
    = wrapped i size.
Proof.
  intro H. unfold wrapped.
  destruct (Z.ltb_spec i 0).
  - destruct (Z.ltb_spec (i + Z.of_nat size) 0); [lia | reflexivity].
  - destruct (Z.ltb_spec i 0); [lia | reflexivity].
Qed.

(** X15. Negative positions are only another spelling: replacing every
    valid negative position [i] by [i + P] gives the same result and the
    same module state. *)
Theorem negative_positions_normalise (m : module) (X : tensor F)
    (P : tensor Z) (B Pn n : nat) (rest : list nat) :
  shape X = B :: Pn :: rest -> shape P = [B; n] -> wf_tensor P ->
  positions_valid P Pn ->
  forward m X P
    = forward m X
        (Tensor [B; n]
                (map (fun i => if (i <? 0)%Z then i + Z.of_nat Pn else i)%Z
                     (data P))).
Proof.
  intros HX HP WP V.
  set (f := fun i => (if (i <? 0)%Z then i + Z.of_nat Pn else i)%Z).
  assert (LP : length (data P) = B * n).
  { unfold wf_tensor, numel in WP. now rewrite HP, numel_pair in WP. }
  assert (WP' : wf_tensor (Tensor [B; n] (map f (data P)))).
  { unfold wf_tensor, numel. cbn [shape data].
    now rewrite length_map, numel_pair. }
  assert (V' : positions_valid (Tensor [B; n] (map f (data P))) Pn).
  { unfold positions_valid in *. cbn [data]. rewrite Forall_forall in *.
    intros i Hi. apply in_map_iff in Hi. destruct Hi as [j [<- Hj]].
    specialize (V j Hj). unfold f. destruct (Z.ltb_spec j 0); lia. }
  unfold forward, forward_masked.
  rewrite (forward_gather_ok X P B Pn n rest HX HP WP V).
  rewrite (forward_gather_ok X (Tensor [B; n] (map f (data P))) B Pn n rest
             HX eq_refl WP' V').
  cbn [data]. unfold index_pairs. rewrite combine_map_r, map_map.
  fold (index_pairs B n (data P)).
  rewrite (map_ext_in
             (fun x => pick B Pn (numel_of rest) (data X) (fst x, f (snd x)))
             (pick B Pn (numel_of rest) (data X))); [reflexivity|].
  intros [b p] Hin. apply in_index_pairs in Hin. destruct Hin as [_ Hp].
  unfold positions_valid in V. rewrite Forall_forall in V.
  unfold pick. cbn [fst snd]. unfold f.
  now rewrite wrapped_normalised by auto.
Qed.

Lemma slice_app_l {T : Type} (d1 d2 : list T) (s len : nat) :
  s + len <= length d1 -> slice (d1 ++ d2) s len = slice d1 s len.
Proof.
  intro H. unfold slice. rewrite skipn_app, firstn_app, length_skipn.
  replace (len - (length d1 - s)) with 0 by lia.
  cbn [firstn]. destruct (skipn (s - length d1) d2); apply app_nil_r.
Qed.

Lemma slice_app_r {T : Type} (d1 d2 : list T) (s len : nat) :
  slice (d1 ++ d2) (length d1 + s) len = slice d2 s len.
Proof.
  unfold slice. rewrite skipn_app, skipn_all2 by lia.
  replace (length d1 + s - length d1) with s by lia. reflexivity.
Qed.

Lemma stacked_rows {T : Type} (g1 g2 g : Z * Z -> list T)
    (B1 B2 n : nat) (p1 p2 : list Z) :
  0 < n -> length p1 = B1 * n -> length p2 = B2 * n ->
  (forall b k, b < B1 -> k < n ->
     g (Z.of_nat b, nth (b * n + k) p1 0%Z)
       = g1 (Z.of_nat b, nth (b * n + k) p1 0%Z)) ->
  (forall b k, b < B2 -> k < n ->
     g (Z.of_nat (B1 + b), nth (b * n + k) p2 0%Z)
       = g2 (Z.of_nat b, nth (b * n + k) p2 0%Z)) ->
  map g (index_pairs (B1 + B2) n (p1 ++ p2))
    = map g1 (index_pairs B1 n p1) ++ map g2 (index_pairs B2 n p2).
Proof.
  intros Hn L1 L2 H1 H2.
  assert (L : length (p1 ++ p2) = (B1 + B2) * n).
  { rewrite length_app. lia. }
  apply (nth_ext _ _ [] []).
  { rewrite length_app, !length_map, !length_index_pairs by assumption. lia. }
  intros j Hj. rewrite length_map, length_index_pairs in Hj by assumption.
  pose proof (Nat.div_mod_eq j n) as Ej.
  pose proof (Nat.mod_upper_bound j n ltac:(lia)) as Hk.
  set (b := j / n) in *. set (k := j mod n) in *.
  assert (Ej' : j = b * n + k) by lia.
  assert (Hb : b < B1 + B2).
  { destruct (Nat.lt_ge_cases b (B1 + B2)) as [|Hge]; [assumption|].
    exfalso. apply (Nat.mul_le_mono_r _ _ n) in Hge. lia. }
  rewrite (nth_indep _ [] (g (0%Z, 0%Z)))
    by (rewrite length_map, length_index_pairs by assumption; lia).
  rewrite map_nth, Ej', nth_index_pairs by assumption.
  destruct (Nat.lt_ge_cases b B1) as [Hlt|Hge].
  - assert (Hj1 : b * n + k < B1 * n).
    { apply (Nat.mul_le_mono_r _ _ n) in Hlt. lia. }
    rewrite (app_nth1 (map g1 (index_pairs B1 n p1)))
      by (rewrite length_map, length_index_pairs; lia).
    rewrite (nth_indep _ [] (g1 (0%Z, 0%Z)))
      by (rewrite length_map, length_index_pairs by assumption; lia).
    rewrite map_nth, nth_index_pairs by assumption.
    rewrite (app_nth1 p1) by lia. now apply H1.
  - assert (Eb : b = B1 + (b - B1)) by lia.
    assert (Hb2 : b - B1 < B2) by lia.
    assert (Es : b * n + k - B1 * n = (b - B1) * n + k).
    { rewrite Nat.mul_sub_distr_r.
      apply (Nat.mul_le_mono_r _ _ n) in Hge. lia. }
    assert (Hj2 : B1 * n <= b * n + k).
    { apply (Nat.mul_le_mono_r _ _ n) in Hge. lia. }
    rewrite (app_nth2 (map g1 (index_pairs B1 n p1)))
      by (rewrite length_map, length_index_pairs; lia).
    rewrite length_map, length_index_pairs, Es by assumption.
    rewrite (nth_indep _ [] (g2 (0%Z, 0%Z)))
      by (rewrite length_map, length_index_pairs by assumption;
          apply (Nat.mul_le_mono_r _ _ n) in Hb2; lia).
    rewrite map_nth, nth_index_pairs by assumption.
    rewrite (app_nth2 p1) by lia. rewrite L1, Es.
    rewrite Eb at 1. now apply H2.
Qed.

(** X16. [forward] works batch element by batch element: stacking two
    batches along the batch axis and calling [forward] once gives the
    outputs of the two separate calls stacked the same way, and the same
    module state. *)
Theorem forward_stacks_batches (m : module) (X1 X2 : tensor F)
    (P1 P2 : tensor Z) (B1 B2 Pn Fd n : nat) :
  wf_module m -> accepts m Fd ->
  shape X1 = [B1; Pn; Fd] -> wf_tensor X1 ->
  shape X2 = [B2; Pn; Fd] -> wf_tensor X2 ->
  shape P1 = [B1; n] -> wf_tensor P1 ->
  shape P2 = [B2; n] -> wf_tensor P2 ->
  0 < B1 -> 0 < B2 -> 0 < n ->
  positions_valid P1 Pn -> positions_valid P2 Pn ->
  exists Y1 Y2 m1,
    forward m X1 P1 = (Ok Y1, m1) /\
    forward m X2 P2 = (Ok Y2, m1) /\
    forward m (Tensor [B1 + B2; Pn; Fd] (data X1 ++ data X2))
              (Tensor [B1 + B2; n] (data P1 ++ data P2))
      = (Ok (Tensor [B1 + B2; n; vocab_size m] (data Y1 ++ data Y2)), m1).
Proof.
  intros Wm Hacc HX1 WX1 HX2 WX2 HP1 WP1 HP2 WP2 HB1 HB2 Hn V1 V2.
  assert (LP1 : length (data P1) = B1 * n).
  { unfold wf_tensor, numel in WP1. now rewrite HP1, numel_pair in WP1. }
  assert (LP2 : length (data P2) = B2 * n).
  { unfold wf_tensor, numel in WP2. now rewrite HP2, numel_pair in WP2. }
  assert (LX1 : length (data X1) = B1 * (Pn * Fd)).
  { unfold wf_tensor, numel in WX1. rewrite HX1 in WX1. simpl in WX1. lia. }
  assert (LX2 : length (data X2) = B2 * (Pn * Fd)).
  { unfold wf_tensor, numel in WX2. rewrite HX2 in WX2. simpl in WX2. lia. }
  set (X := Tensor [B1 + B2; Pn; Fd] (data X1 ++ data X2)).
  set (P := Tensor [B1 + B2; n] (data P1 ++ data P2)).
  assert (WX : wf_tensor X).
  { unfold wf_tensor, numel. cbn. rewrite length_app. lia. }
  assert (WP : wf_tensor P).
  { unfold wf_tensor, numel. cbn. rewrite length_app. lia. }
  assert (V : positions_valid P Pn).
  { unfold positions_valid. cbn [P data]. apply Forall_app. now split. }
  rewrite (forward_ok m X1 P1 B1 Pn Fd n) by assumption.
  rewrite (forward_ok m X2 P2 B2 Pn Fd n) by assumption.
  rewrite (forward_ok m X P (B1 + B2) Pn Fd n Wm Hacc eq_refl WX eq_refl WP)
    by (assumption || lia).
  do 3 eexists. split; [reflexivity|]. split; [reflexivity|].
  cbn [data]. do 3 f_equal. rewrite <- concat_app. f_equal.
  unfold positions_valid in V1, V2. rewrite Forall_forall in V1, V2.
  apply stacked_rows; try assumption.
  - intros b k Hb Hk. f_equal. unfold pick. cbn [fst snd].
    rewrite !wrapped_nat.
    destruct (wrap_index_valid (nth (b * n + k) (data P1) 0%Z) Pn) as [_ Hw].
    { apply V1, nth_In. nia. }
    apply slice_app_l. rewrite LX1.
    pose proof (offset_bound B1 Pn Fd b _ Hb Hw). lia.
  - intros b k Hb Hk. f_equal. unfold pick. cbn [fst snd].
    rewrite !wrapped_nat.
    rewrite <- (slice_app_r (data X1) (data X2)). f_equal. rewrite LX1. lia.
Qed.

End BatchStructure.

(** * The further theorems on concrete tensors *)

Section MoreInstances.

Import Torch MaskLM Demo DemoMore.

#[local] Existing Instance ZNum.

(** Positions without a batch axis. *)
Lemma too_few_axes_raise_witness :
  forward (init 7 4) X_2_5_16 P_flat = (Raise IndexError, init 7 4).
Proof.
  apply (@too_few_axes_raise Z ZNum (init 7 4) X_2_5_16 P_flat).
  right. simpl. lia.
Defined.

(** Position 5 of 5. *)
Lemma invalid_position_leaves_module_witness :
  forward (init 7 4) X_2_5_16 P_too_large = (Raise IndexError, init 7 4).
Proof.
  apply (@invalid_position_leaves_module Z ZNum (init 7 4)
           X_2_5_16 P_too_large 2 5 2 [16]); try reflexivity.
  unfold P_too_large. simpl.
  apply Exists_cons_tl, Exists_cons_hd. lia.
Defined.

(** Hidden states of shape [(2, 3, 2, 2)]: four features per position. *)
Lemma trailing_axes_flattened_witness :
  exists G,
    forward_masked X_2_3_2_2 P_wrapping = Ok G /\
    shape G = [2; 2; numel_of [2; 2]] /\
    forall b k, b < 2 -> k < 2 ->
      exists v,
        select2 X_2_3_2_2 (Z.of_nat b) (item2 P_wrapping b k) = Ok v /\
        length v = numel_of [2; 2] /\
        select2 G (Z.of_nat b) (Z.of_nat k) = Ok v.
Proof.
  apply (@trailing_axes_flattened Z X_2_3_2_2 P_wrapping 2 3 2 [2; 2]);
    try reflexivity; try lia.
  unfold positions_valid. simpl. repeat constructor; lia.
Defined.

(** Position 3 for both batch elements. *)
Lemma single_position_is_broadcast_witness :
  forward (init 7 4) X_2_5_16 (Tensor [1; 1] [3%Z])
    = forward (init 7 4) X_2_5_16 (Tensor [2; 1] (repeat 3%Z 2)).
Proof.
  apply (@single_position_is_broadcast Z ZNum (init 7 4) X_2_5_16 3%Z
           2 5 [16]).
  - reflexivity.
  - lia.
Defined.

(** Three position rows against one batch element. *)
Lemma single_batch_concatenates_rows_witness :
  exists vs,
    mapM (fun p => select2 X_1_3_2 0%Z p) (data P_3_1) = Ok vs /\
    forward_masked X_1_3_2 P_3_1 = Ok (Tensor [1; 1; 3 * 2] (concat vs)).
Proof.
  apply (@single_batch_concatenates_rows Z X_1_3_2 P_3_1 3 3 2);
    try reflexivity.
  unfold positions_valid. simpl. repeat constructor; lia.
Defined.

(** The first call on a fresh head. *)
Lemma returning_call_fixes_module_witness :
  exists Y m1,
    forward (init 7 4) X_2_5_16 P_2_2 = (Ok Y, m1) /\
    wf_module m1 /\
    (exists l1 l2,
       fc1 m1 = Materialized l1 /\ fc2 m1 = Materialized l2 /\
       in_features l1 = 16 /\ out_features l1 = num_hiddens (init 7 4) /\
       in_features l2 = num_hiddens (init 7 4) /\
       out_features l2 = vocab_size (init 7 4)) /\
    (forall w, accepts m1 w <-> w = 16) /\
    (forall X' P', snd (forward m1 X' P') = m1).
Proof.
  destruct (forward (init 7 4) X_2_5_16 P_2_2) as [[Y|e] m1] eqn:E;
    [|vm_compute in E; discriminate].
  exists Y, m1. split; [reflexivity|].
  apply (@returning_call_fixes_module Z ZNum (init 7 4)
           X_2_5_16 P_2_2 2 5 16 2 Y m1); try reflexivity.
  - apply wf_init.
  - exact E.
Defined.

(** Sixteen features on the first call, eight on the second. *)
Lemma other_width_raises_witness :
  exists Y m1,
    forward (init 7 4) X_2_5_16 P_2_2 = (Ok Y, m1) /\
    forward m1 X_2_5_8 P_2_2 = (Raise RuntimeError, m1).
Proof.
  destruct (forward (init 7 4) X_2_5_16 P_2_2) as [[Y|e] m1] eqn:E;
    [|vm_compute in E; discriminate].
  exists Y, m1. split; [reflexivity|].
  apply (@other_width_raises Z ZNum (init 7 4) X_2_5_16 X_2_5_8 P_2_2 P_2_2
           2 5 16 2 2 5 8 2 Y m1); try reflexivity; try lia.
  - apply wf_init.
  - exact E.
  - unfold positions_valid. simpl. repeat constructor; lia.
Defined.

(** A fresh head on hidden states of eight features. *)
Lemma fresh_head_takes_any_width_witness :
  exists Y,
    forward (init 7 4) X_2_5_8 P_2_2
      = (Ok Y, Module_ (Materialized (materialize 0 4 8))
                       (norm (init 7 4))
                       (Materialized (materialize 3 7 4))) /\
    shape Y = [2; 2; 7] /\ wf_tensor Y.
Proof.
  apply (@fresh_head_takes_any_width Z ZNum 7 4 X_2_5_8 P_2_2 2 5 8 2);
    try reflexivity; try lia.
  unfold positions_valid. simpl. repeat constructor; lia.
Defined.

(** The position [-1] of five positions is position 4. *)
Lemma negative_positions_normalise_witness :
  forward (init 7 4) X_2_5_16 P_negative
    = forward (init 7 4) X_2_5_16
        (Tensor [2; 2]
                (map (fun i => if (i <? 0)%Z then i + Z.of_nat 5 else i)%Z
                     (data P_negative))).
Proof.
  apply (@negative_positions_normalise Z ZNum (init 7 4)
           X_2_5_16 P_negative 2 5 2 [16]); try reflexivity.
  unfold positions_valid. simpl. repeat constructor; lia.
Defined.

(** A batch of two and a batch of three. *)
Lemma forward_stacks_batches_witness :
  exists Y1 Y2 m1,
    forward (init 7 4) X_2_5_16 P_2_2 = (Ok Y1, m1) /\
    forward (init 7 4) X_3_5_16 P_3_2_valid = (Ok Y2, m1) /\
    forward (init 7 4)
            (Tensor [2 + 3; 5; 16] (data X_2_5_16 ++ data X_3_5_16))
            (Tensor [2 + 3; 2] (data P_2_2 ++ data P_3_2_valid))
      = (Ok (Tensor [2 + 3; 2; vocab_size (init 7 4)] (data Y1 ++ data Y2)),
         m1).
Proof.
  apply (@forward_stacks_batches Z ZNum (init 7 4) X_2_5_16 X_3_5_16
           P_2_2 P_3_2_valid 2 3 5 16 2); try reflexivity; try lia.
  - apply wf_init.
  - unfold positions_valid. simpl. repeat constructor; lia.
  - unfold positions_valid. simpl. repeat constructor; lia.
Defined.

End MoreInstances.
